(** * NRAI-Kancha: the cache service and the speech-config pool

    A shallow embedding of [services/cacheService.js] (class [CacheService])
    and of the connection pool of [OptimizedSpeechService], with the
    properties of the cache tiers (capacity, overwrite, eviction order, TTL,
    key derivation) and of the pool (acquire, release, maintenance).

    Conventions.
    - A JavaScript string is represented by the Rocq [string] of its UTF-8
      bytes, which is what [crypto]'s [update] hashes.
    - [Date.now()] is the integer [now : Z] (milliseconds) that every
      operation receives; a call is synchronous, so one reading serves it.
    - A JavaScript [Map] is the list of its entries in insertion order. *)

From Stdlib Require Import ZArith Lia Ascii String List.
From stdpp Require Import base tactics option list strings pretty.

Local Open Scope Z_scope.

(** ** Node's [crypto.createHash('md5')]

    The digest is library code, outside the repository.  The cache is
    parameterised by an arbitrary digest function; this module gives the
    MD5 of RFC 1321 so that the service can also be evaluated on concrete
    inputs. *)
Module MD5.

Definition mask32 : Z := 0xFFFFFFFF.

Definition add32 (x y : Z) : Z := Z.land (x + y) mask32.

Definition not32 (x : Z) : Z := Z.lxor x mask32.

Definition rotl32 (x n : Z) : Z :=
  Z.lor (Z.land (Z.shiftl x n) mask32) (Z.shiftr x (32 - n)).

Definition shifts : list Z :=
  [7; 12; 17; 22; 7; 12; 17; 22; 7; 12; 17; 22; 7; 12; 17; 22;
   5;  9; 14; 20; 5;  9; 14; 20; 5;  9; 14; 20; 5;  9; 14; 20;
   4; 11; 16; 23; 4; 11; 16; 23; 4; 11; 16; 23; 4; 11; 16; 23;
   6; 10; 15; 21; 6; 10; 15; 21; 6; 10; 15; 21; 6; 10; 15; 21].

(** [floor (2^32 * |sin (i + 1)|)] for [i = 0 .. 63]. *)
Definition sines : list Z :=
  [3614090360; 3905402710; 606105819; 3250441966; 4118548399; 1200080426;
   2821735955; 4249261313; 1770035416; 2336552879; 4294925233; 2304563134;
   1804603682; 4254626195; 2792965006; 1236535329; 4129170786; 3225465664;
   643717713; 3921069994; 3593408605; 38016083; 3634488961; 3889429448;
   568446438; 3275163606; 4107603335; 1163531501; 2850285829; 4243563512;
   1735328473; 2368359562; 4294588738; 2272392833; 1839030562; 4259657740;
   2763975236; 1272893353; 4139469664; 3200236656; 681279174; 3936430074;
   3572445317; 76029189; 3654602809; 3873151461; 530742520; 3299628645;
   4096336452; 1126891415; 2878612391; 4237533241; 1700485571; 2399980690;
   4293915773; 2240044497; 1873313359; 4264355552; 2734768916; 1309151649;
   4149444226; 3174756917; 718787259; 3951481745].

Definition word_state : Type := Z * Z * Z * Z.

Definition init_state : word_state :=
  (0x67452301, 0xefcdab89, 0x98badcfe, 0x10325476).

(** The mixing function and the message-word index of round [i]. *)
Definition mix (i : nat) (b c d : Z) : Z * nat :=
  if (i <? 16)%nat then
    (Z.lor (Z.land b c) (Z.land (not32 b) d), i)
  else if (i <? 32)%nat then
    (Z.lor (Z.land d b) (Z.land (not32 d) c), ((5 * i + 1) mod 16)%nat)
  else if (i <? 48)%nat then
    (Z.lxor b (Z.lxor c d), ((3 * i + 5) mod 16)%nat)
  else
    (Z.lxor c (Z.lor b (not32 d)), ((7 * i) mod 16)%nat).

Definition round (block : list Z) (st : word_state) (i : nat) : word_state :=
  let '(a, b, c, d) := st in
  let '(f, g) := mix i b c d in
  let sum := add32 (add32 (add32 f a) (nth i sines 0)) (nth g block 0) in
  (d, add32 b (rotl32 sum (nth i shifts 0)), b, c).

Definition compress (st : word_state) (block : list Z) : word_state :=
  let '(a0, b0, c0, d0) := st in
  let '(a, b, c, d) := fold_left (round block) (seq 0 64) st in
  (add32 a0 a, add32 b0 b, add32 c0 c, add32 d0 d).

(** Little-endian bytes of a word. *)
Fixpoint le_bytes (n : nat) (x : Z) : list Z :=
  match n with
  | O => []
  | S n' => Z.land x 0xFF :: le_bytes n' (Z.shiftr x 8)
  end.

Fixpoint le_words (fuel : nat) (bytes : list Z) : list Z :=
  match fuel, bytes with
  | S fuel', b0 :: b1 :: b2 :: b3 :: rest =>
      (b0 + Z.shiftl b1 8 + Z.shiftl b2 16 + Z.shiftl b3 24)
        :: le_words fuel' rest
  | _, _ => []
  end.

Definition pad (bytes : list Z) : list Z :=
  let len := Z.of_nat (length bytes) in
  bytes ++ [0x80] ++ repeat 0 (Z.to_nat ((55 - len) mod 64))
        ++ le_bytes 8 (8 * len).

Definition bytes_of_string (s : string) : list Z :=
  map (fun c => Z.of_N (N_of_ascii c)) (list_ascii_of_string s).

Definition hex_digit (x : Z) : ascii :=
  nth (Z.to_nat x)
    (list_ascii_of_string "0123456789abcdef") "0"%char.

Definition hex_of_bytes (bytes : list Z) : string :=
  string_of_list_ascii
    (flat_map (fun b => [hex_digit (Z.shiftr b 4); hex_digit (Z.land b 0xF)])
       bytes).

Definition digest (bytes : list Z) : word_state :=
  let padded := pad bytes in
  let words := le_words (length padded) padded in
  fold_left
    (fun st j => compress st (firstn 16 (skipn (16 * j) words)))
    (seq 0 (length padded / 64)%nat) init_state.

(** [crypto.createHash('md5').update(input).digest('hex')] *)
Definition md5_hex (input : string) : string :=
  let '(a, b, c, d) := digest (bytes_of_string input) in
  hex_of_bytes (le_bytes 4 a ++ le_bytes 4 b ++ le_bytes 4 c ++ le_bytes 4 d).

End MD5.

(** ** JavaScript [Map] with string keys

    The entries in insertion order; a key occurs at most once.  [set] on a
    resident key replaces its value and keeps its position, [set] on a new
    key appends, [keys().next().value] is the key of the first entry. *)
Module JsMap.

Section Ops.
Context {A : Type}.

Definition t : Type := list (string * A).

Definition empty : t := [].

Definition size (m : t) : nat := length m.

Definition keys (m : t) : list string := map fst m.

Fixpoint get (k : string) (m : t) : option A :=
  match m with
  | [] => None
  | (k', a) :: m' => if String.eqb k k' then Some a else get k m'
  end.

Fixpoint set (k : string) (a : A) (m : t) : t :=
  match m with
  | [] => [(k, a)]
  | (k', a') :: m' =>
      if String.eqb k k' then (k', a) :: m' else (k', a') :: set k a m'
  end.

Fixpoint delete (k : string) (m : t) : t :=
  match m with
  | [] => []
  | (k', a') :: m' =>
      if String.eqb k k' then m' else (k', a') :: delete k m'
  end.

(** [m.keys().next().value]; [None] stands for [undefined]. *)
Definition first_key (m : t) : option string :=
  match m with
  | [] => None
  | (k, _) :: _ => Some k
  end.

(** [m.delete(m.keys().next().value)]: deleting [undefined] from a map
    with string keys removes nothing. *)
Definition delete_first (m : t) : t :=
  match first_key m with
  | Some k => delete k m
  | None => m
  end.

(** The loop [for (const [key, value] of m.entries()) if (dead value)
    m.delete(key)], which also counts the deletions. *)
Definition sweep (dead : A -> bool) (m : t) : t * nat :=
  (List.filter (fun kv => negb (dead (snd kv))) m,
   length (List.filter (fun kv => dead (snd kv)) m)).

End Ops.

Arguments t A : clear implicits.

End JsMap.

(** ** Node's [Buffer]

    A buffer is the [string] of its bytes. *)
Module Buffer.

Definition length (buf : string) : Z := Z.of_nat (String.length buf).

(** How [slice] reads an index: a negative one counts from the end, and
    both kinds are clamped to the buffer. *)
Definition index (len i : Z) : Z :=
  if i <? 0 then Z.max (len + i) 0 else Z.min i len.

(** [buf.slice(start, end)]; [None] is an omitted [end]. *)
Definition slice (start : Z) (stop : option Z) (buf : string) : string :=
  let len := length buf in
  let first := index len start in
  let last := index len (match stop with Some e => e | None => len end) in
  String.substring (Z.to_nat first) (Z.to_nat (last - first)) buf.

(** [Buffer.concat(bufs)] *)
Definition concat (bufs : list string) : string :=
  fold_right String.append EmptyString bufs.

End Buffer.

(** ** JavaScript numbers

    The finite, non-negative IEEE-754 binary64 values that the code
    computes with, written [mant * 2 ^ expo].  A product is rounded to 53
    significant bits, ties to even.  The values met here are far from the
    subnormal and the overflow ranges, which are left out. *)
Module Double.

Record t : Type := mk { mant : Z; expo : Z }.

Definition ofInt (n : Z) : t := mk n 0.

Definition round (m e : Z) : t :=
  if m <? 2 ^ 53 then mk m e
  else
    let k := Z.log2 m - 52 in
    let q := Z.shiftr m k in
    let r := Z.land m (Z.ones k) in
    let half := 2 ^ (k - 1) in
    let q' :=
      if (half <? r) || ((r =? half) && Z.odd q) then q + 1 else q in
    mk q' (e + k).

Definition mul (x y : t) : t :=
  round (mant x * mant y) (expo x + expo y).

(** [n >= d], for an integer [n]. *)
Definition geInt (n : Z) (d : t) : bool :=
  if expo d <? 0 then mant d <=? n * 2 ^ (- expo d)
  else mant d * 2 ^ expo d <=? n.

(** [Math.floor(d)] *)
Definition floor (d : t) : Z :=
  if expo d <? 0 then Z.shiftr (mant d) (- expo d)
  else mant d * 2 ^ expo d.

(** The literals [0.9] (0x1.ccccccccccccdp-1) and [0.25]. *)
Definition d0_9 : t := mk 8106479329266893 (-53).

Definition d0_25 : t := mk 1 (-2).

End Double.

(** ** [services/cacheService.js] *)
Module Cache.

Inductive Tier : Type := Response | Language | Transcript.

#[global] Instance Tier_eq_dec : EqDecision Tier.
Proof. solve_decision. Defined.

(** [{ data, expires }] *)
Record Entry (V : Type) : Type := mkEntry { data : V; expires : Z }.
Arguments mkEntry {V} _ _.
Arguments data {V} _.
Arguments expires {V} _.

(** [this.config] *)
Record Config : Type := mkConfig {
  responseMaxSize : nat;
  responseTTL : Z;
  languageMaxSize : nat;
  languageTTL : Z;
  transcriptMaxSize : nat;
  transcriptTTL : Z
}.

Definition config : Config :=
  {| responseMaxSize := 100;
     responseTTL := 5 * 60 * 1000;
     languageMaxSize := 50;
     languageTTL := 2 * 60 * 1000;
     transcriptMaxSize := 30;
     transcriptTTL := 1 * 60 * 1000 |}.

Definition maxSize (t : Tier) : nat :=
  match t with
  | Response => responseMaxSize config
  | Language => languageMaxSize config
  | Transcript => transcriptMaxSize config
  end.

Definition TTL (t : Tier) : Z :=
  match t with
  | Response => responseTTL config
  | Language => languageTTL config
  | Transcript => transcriptTTL config
  end.

(** The lines the service writes with [console.log]. *)
Inductive LogLine : Type :=
| LogInitialized
| LogCacheHit (t : Tier)
| LogCachedResponse (size max : nat)
| LogClearedExpired (cleared : nat)
| LogAllCleared.

Record CacheService (V : Type) : Type := mkService {
  responseCache : JsMap.t (Entry V);
  languageCache : JsMap.t (Entry V);
  transcriptCache : JsMap.t (Entry V);
  console : list LogLine
}.
Arguments mkService {V} _ _ _ _.
Arguments responseCache {V} _.
Arguments languageCache {V} _.
Arguments transcriptCache {V} _.
Arguments console {V} _.

Section Service.
(** [crypto.createHash('md5').update(input).digest('hex')] *)
Variable md5 : string -> string.
(** The cached payloads. *)
Context {V : Type}.

(** [new CacheService()] *)
Definition constructor : CacheService V :=
  mkService JsMap.empty JsMap.empty JsMap.empty [LogInitialized].

Definition generateKey (input type : string) : string :=
  (type ++ ":" ++ md5 input)%string.

(** The template [`${message}:${sessionId}`]. *)
Definition responseInput (message sessionId : string) : string :=
  (message ++ ":" ++ sessionId)%string.

(** [cached && cached.expires > Date.now()], with the [cached.data] that
    the getter then returns; [None] stands for the [null] of a miss. *)
Definition live (now : Z) (cached : option (Entry V)) : option V :=
  match cached with
  | Some e => if now <? expires e then Some (data e) else None
  | None => None
  end.

Definition log (line : LogLine) (svc : CacheService V) : CacheService V :=
  mkService (responseCache svc) (languageCache svc) (transcriptCache svc)
    (console svc ++ [line]).

Definition getResponse (message sessionId : string) (now : Z)
    (svc : CacheService V) : option V * CacheService V :=
  let key := generateKey (responseInput message sessionId) "response" in
  match live now (JsMap.get key (responseCache svc)) with
  | Some d => (Some d, log (LogCacheHit Response) svc)
  | None => (None, svc)
  end.

(** The body shared by the three setters: [if (cache.size >= maxSize)
    cache.delete(cache.keys().next().value)], then [cache.set(key,
    { data, expires: Date.now() + ttl })]. *)
Definition evictIfFull (max : nat) (cache : JsMap.t (Entry V))
    : JsMap.t (Entry V) :=
  if (max <=? JsMap.size cache)%nat then JsMap.delete_first cache
  else cache.

Definition store (max : nat) (ttl : Z) (key : string) (value : V)
    (now : Z) (cache : JsMap.t (Entry V)) : JsMap.t (Entry V) :=
  JsMap.set key (mkEntry value (now + ttl)) (evictIfFull max cache).

Definition setResponse (message sessionId : string) (response : V)
    (now : Z) (svc : CacheService V) : CacheService V :=
  let key := generateKey (responseInput message sessionId) "response" in
  let cache :=
    store (responseMaxSize config) (responseTTL config) key response now
      (responseCache svc) in
  log (LogCachedResponse (JsMap.size cache) (responseMaxSize config))
    (mkService cache (languageCache svc) (transcriptCache svc)
       (console svc)).

Definition getLanguage (audioHash : string) (now : Z)
    (svc : CacheService V) : option V * CacheService V :=
  let key := generateKey audioHash "lang" in
  match live now (JsMap.get key (languageCache svc)) with
  | Some d => (Some d, log (LogCacheHit Language) svc)
  | None => (None, svc)
  end.

Definition setLanguage (audioHash : string) (language : V) (now : Z)
    (svc : CacheService V) : CacheService V :=
  let key := generateKey audioHash "lang" in
  mkService (responseCache svc)
    (store (languageMaxSize config) (languageTTL config) key language now
       (languageCache svc))
    (transcriptCache svc) (console svc).

Definition getTranscript (audioHash : string) (now : Z)
    (svc : CacheService V) : option V * CacheService V :=
  let key := generateKey audioHash "transcript" in
  match live now (JsMap.get key (transcriptCache svc)) with
  | Some d => (Some d, log (LogCacheHit Transcript) svc)
  | None => (None, svc)
  end.

Definition setTranscript (audioHash : string) (transcript : V) (now : Z)
    (svc : CacheService V) : CacheService V :=
  let key := generateKey audioHash "transcript" in
  mkService (responseCache svc) (languageCache svc)
    (store (transcriptMaxSize config) (transcriptTTL config) key
       transcript now (transcriptCache svc))
    (console svc).

Definition expired (now : Z) (e : Entry V) : bool := expires e <=? now.

Definition clearExpired (now : Z) (svc : CacheService V)
    : CacheService V :=
  let '(responses, n1) := JsMap.sweep (expired now) (responseCache svc) in
  let '(languages, n2) := JsMap.sweep (expired now) (languageCache svc) in
  let '(transcripts, n3) :=
    JsMap.sweep (expired now) (transcriptCache svc) in
  let cleared := (n1 + n2 + n3)%nat in
  let svc' := mkService responses languages transcripts (console svc) in
  if (0 <? cleared)%nat then log (LogClearedExpired cleared) svc'
  else svc'.

Definition clearAll (svc : CacheService V) : CacheService V :=
  log LogAllCleared
    (mkService JsMap.empty JsMap.empty JsMap.empty (console svc)).

(** *** The three tiers seen through one interface

    What a caller passes to a getter or setter to name an entry. *)
Inductive KeyInput : Type :=
| ForResponse (message sessionId : string)
| ForLanguage (audioHash : string)
| ForTranscript (audioHash : string).

Definition tierOf (i : KeyInput) : Tier :=
  match i with
  | ForResponse _ _ => Response
  | ForLanguage _ => Language
  | ForTranscript _ => Transcript
  end.

Definition keyOf (i : KeyInput) : string :=
  match i with
  | ForResponse message sessionId =>
      generateKey (responseInput message sessionId) "response"
  | ForLanguage audioHash => generateKey audioHash "lang"
  | ForTranscript audioHash => generateKey audioHash "transcript"
  end.

Definition tierCache (t : Tier) (svc : CacheService V)
    : JsMap.t (Entry V) :=
  match t with
  | Response => responseCache svc
  | Language => languageCache svc
  | Transcript => transcriptCache svc
  end.

Definition cacheGet (i : KeyInput) (now : Z) (svc : CacheService V)
    : option V * CacheService V :=
  match i with
  | ForResponse message sessionId => getResponse message sessionId now svc
  | ForLanguage audioHash => getLanguage audioHash now svc
  | ForTranscript audioHash => getTranscript audioHash now svc
  end.

Definition cacheSet (i : KeyInput) (value : V) (now : Z)
    (svc : CacheService V) : CacheService V :=
  match i with
  | ForResponse message sessionId =>
      setResponse message sessionId value now svc
  | ForLanguage audioHash => setLanguage audioHash value now svc
  | ForTranscript audioHash => setTranscript audioHash value now svc
  end.

(** One call of the service, with the clock reading it sees. *)
Inductive Call : Type :=
| CallSet (i : KeyInput) (value : V) (now : Z)
| CallGet (i : KeyInput) (now : Z)
| CallClearExpired (now : Z)
| CallClearAll.

Definition step (svc : CacheService V) (c : Call) : CacheService V :=
  match c with
  | CallSet i value now => cacheSet i value now svc
  | CallGet i now => snd (cacheGet i now svc)
  | CallClearExpired now => clearExpired now svc
  | CallClearAll => clearAll svc
  end.

(** The states after each call of a sequence, in order. *)
Fixpoint trace (svc : CacheService V) (calls : list Call)
    : list (CacheService V) :=
  match calls with
  | [] => []
  | c :: calls' => let svc' := step svc c in svc' :: trace svc' calls'
  end.

Definition run (svc : CacheService V) (calls : list Call)
    : CacheService V :=
  fold_left step calls svc.

Definition withinCapacity (svc : CacheService V) : Prop :=
  forall t, (JsMap.size (tierCache t svc) <= maxSize t)%nat.

(** Every tier is a map: no key has two entries. *)
Definition wellFormed (svc : CacheService V) : Prop :=
  forall t, NoDup (JsMap.keys (tierCache t svc)).

(** The calls that store the given values, each at its time. *)
Definition setCalls (entries : list (KeyInput * V * Z)) : list Call :=
  map (fun e => CallSet (fst (fst e)) (snd (fst e)) (snd e)) entries.

(** The entry that a stored value becomes in its tier. *)
Definition entryOf (e : KeyInput * V * Z) : string * Entry V :=
  (keyOf (fst (fst e)), mkEntry (snd (fst e)) (snd e + TTL (tierOf (fst (fst e))))).

(** What a set of an entry of tier [t] does to that tier. *)
Definition storeEntry (t : Tier) (cache : JsMap.t (Entry V))
    (e : KeyInput * V * Z) : JsMap.t (Entry V) :=
  store (maxSize t) (TTL t) (keyOf (fst (fst e))) (snd (fst e)) (snd e) cache.

(** *** Two statements of the specification, as it words them

    "For every key already present in a tier, set overwrites the entry in
    place: a subsequent get returns the new value, the size is unchanged,
    and no entry is evicted." *)
Definition overwritesInPlace (i : KeyInput) (value : V) (now : Z)
    (svc : CacheService V) : Prop :=
  JsMap.get (keyOf i) (tierCache (tierOf i) svc) <> None ->
  let svc' := cacheSet i value now svc in
  fst (cacheGet i now svc') = Some value
  /\ JsMap.size (tierCache (tierOf i) svc')
     = JsMap.size (tierCache (tierOf i) svc)
  /\ JsMap.keys (tierCache (tierOf i) svc')
     = JsMap.keys (tierCache (tierOf i) svc).


End Service.



(** *** The rest of the service: audio hashes, statistics, pruning *)

Module TierStats.
(** [{ size, maxSize }] *)
Record t : Type := mk { size : nat; maxSize : nat }.
End TierStats.

Module Stats.
(** What [getStats] returns. *)
Record t : Type := mk {
  responseCache : TierStats.t;
  languageCache : TierStats.t;
  transcriptCache : TierStats.t;
  totalSize : nat
}.
End Stats.

Section Administration.
Variable md5 : string -> string.
Context {V : Type}.

(** The buffer [combined] of [getAudioHash]: the first and the last 1024
    bytes of the audio. *)
Definition combined (audioBuffer : string) : string :=
  let start := Buffer.slice 0 (Some 1024) audioBuffer in
  let end_ := Buffer.slice (-1024) None audioBuffer in
  Buffer.concat [start; end_].

Definition getAudioHash (audioBuffer : string) : string :=
  md5 (combined audioBuffer).

Definition getStats (svc : CacheService V) : Stats.t :=
  Stats.mk
    (TierStats.mk (JsMap.size (responseCache svc)) (responseMaxSize config))
    (TierStats.mk (JsMap.size (languageCache svc)) (languageMaxSize config))
    (TierStats.mk (JsMap.size (transcriptCache svc))
       (transcriptMaxSize config))
    (JsMap.size (responseCache svc) + JsMap.size (languageCache svc)
     + JsMap.size (transcriptCache svc)).

(** The local function [pruneCache] of [prune]: [if (cache.size >= maxSize
    * 0.9)], remove the first [Math.floor(cache.size * 0.25)] keys and
    return their number, else return 0. *)
Definition pruneCache (cache : JsMap.t (Entry V)) (maxSize : nat)
    : JsMap.t (Entry V) * nat :=
  if Double.geInt (Z.of_nat (JsMap.size cache))
       (Double.mul (Double.ofInt (Z.of_nat maxSize)) Double.d0_9)
  then
    let toRemove :=
      Z.to_nat
        (Double.floor
           (Double.mul (Double.ofInt (Z.of_nat (JsMap.size cache)))
              Double.d0_25)) in
    let keys := firstn toRemove (JsMap.keys cache) in
    (fold_left (fun c key => JsMap.delete key c) keys cache, toRemove)
  else (cache, 0%nat).

(** [prune()].  The service's [LogLine] has no line for it: the number
    that [prune] writes to the console, when it is positive, is returned
    beside the service instead. *)
Definition prune (svc : CacheService V) : CacheService V * option nat :=
  let '(responses, n1) :=
    pruneCache (responseCache svc) (responseMaxSize config) in
  let '(languages, n2) :=
    pruneCache (languageCache svc) (languageMaxSize config) in
  let '(transcripts, n3) :=
    pruneCache (transcriptCache svc) (transcriptMaxSize config) in
  let pruned := (n1 + n2 + n3)%nat in
  (mkService responses languages transcripts (console svc),
   if (0 <? pruned)%nat then Some pruned else None).

(** A call of the service, or a call of [prune]. *)
Inductive Op : Type :=
| OpCall (c : @Call V)
| OpPrune.

Definition stepOp (svc : CacheService V) (op : Op) : CacheService V :=
  match op with
  | OpCall c => step md5 svc c
  | OpPrune => fst (prune svc)
  end.

Definition runOps (svc : CacheService V) (ops : list Op) : CacheService V :=
  fold_left stepOp ops svc.

(** The values that a sequence of calls stores in tier [t], in order. *)
Definition storedIn (t : Tier) (calls : list (@Call V))
    : list (KeyInput * V * Z) :=
  flat_map
    (fun c =>
       match c with
       | CallSet i value now =>
           if decide (tierOf i = t) then [(i, value, now)] else []
       | _ => []
       end)
    calls.

(** Whether a call is a get or a set. *)
Definition isGetOrSet (c : @Call V) : bool :=
  match c with
  | CallSet _ _ _ | CallGet _ _ => true
  | CallClearExpired _ | CallClearAll => false
  end.

End Administration.

End Cache.


(** ** The speech-config pool of [OptimizedSpeechService]

    Pool items are JavaScript objects that the pool array, the callers and
    the maintenance timer share by reference.  The model keeps every item
    ever created in an object store, [objects]; a reference is an index in
    it, and [configPool] is the array of references.

    [sdk.SpeechConfig.fromSubscription] is library code.  A [SpeechConfig]
    is identified by the number of the constructor call that returned it,
    and [sdkThrows n] tells whether the [n]-th constructor call throws. *)
Module Pool.

Abbreviation Handle := nat (only parsing).
Abbreviation Ref := nat (only parsing).

(** [{ config, inUse, temporary, created, lastUsed }]; an item pushed by
    [initializeConfigPool] has no [temporary] property, which reads as
    false. *)
Record PoolItem : Type := mkItem {
  config : Handle;
  inUse : bool;
  temporary : bool;
  created : Z;
  lastUsed : Z
}.

Module Stats.
(** [this.poolStats] *)
Record t : Type := mk { created : nat; reused : nat; destroyed : nat }.
End Stats.

Inductive LogLine : Type :=
| LogInitializing
| LogCreatingPool
| LogAllInUse
| LogRefreshed.

Record SpeechService : Type := mkService {
  objects : list PoolItem;
  configPool : list Ref;
  poolSize : nat;
  poolStats : Stats.t;
  sdkCalls : nat;
  closedConfigs : list Handle;
  console : list LogLine
}.

(** [new OptimizedSpeechService()] *)
Definition constructor : SpeechService :=
  {| objects := [];
     configPool := [];
     poolSize := 5;
     poolStats := Stats.mk 0 0 0;
     sdkCalls := 0;
     closedConfigs := [];
     console := [LogInitializing] |}.

(** *** Computations that change the service and may throw *)

Inductive Exn : Type :=
| SdkError    (* thrown by the speech SDK *)
| TypeError.  (* a property read on [undefined] *)

Inductive Outcome (A : Type) : Type :=
| Returned (a : A)
| Thrown (e : Exn).
Arguments Returned {A} _.
Arguments Thrown {A} _.

Definition M (A : Type) : Type := SpeechService -> Outcome A * SpeechService.

Definition ret {A : Type} (a : A) : M A := fun st => (Returned a, st).

Definition bind {A B : Type} (m : M A) (k : A -> M B) : M B :=
  fun st =>
    match m st with
    | (Returned a, st') => k a st'
    | (Thrown e, st') => (Thrown e, st')
    end.

Declare Scope pool_scope.
Delimit Scope pool_scope with pool.
Notation "x <- m ;; k" := (bind m (fun x => k))
  (at level 20, m at level 99, k at level 200, only parsing) : pool_scope.
Notation "m ;; k" := (bind m (fun _ => k))
  (at level 100, k at level 200, right associativity, only parsing)
  : pool_scope.
Local Open Scope pool_scope.

Definition modify (f : SpeechService -> SpeechService) : M unit :=
  fun st => (Returned tt, f st).

Definition withObjects (f : list PoolItem -> list PoolItem)
    (st : SpeechService) : SpeechService :=
  mkService (f (objects st)) (configPool st) (poolSize st) (poolStats st)
    (sdkCalls st) (closedConfigs st) (console st).

Definition withConfigPool (f : list Ref -> list Ref)
    (st : SpeechService) : SpeechService :=
  mkService (objects st) (f (configPool st)) (poolSize st) (poolStats st)
    (sdkCalls st) (closedConfigs st) (console st).

Definition withPoolStats (f : Stats.t -> Stats.t)
    (st : SpeechService) : SpeechService :=
  mkService (objects st) (configPool st) (poolSize st) (f (poolStats st))
    (sdkCalls st) (closedConfigs st) (console st).

Definition log (line : LogLine) : M unit :=
  modify (fun st =>
    mkService (objects st) (configPool st) (poolSize st) (poolStats st)
      (sdkCalls st) (closedConfigs st) (console st ++ [line])).

(** [this.poolStats.created++] and its siblings. *)
Definition countCreated : M unit :=
  modify (withPoolStats (fun s =>
    Stats.mk (S (Stats.created s)) (Stats.reused s) (Stats.destroyed s))).

Definition countReused : M unit :=
  modify (withPoolStats (fun s =>
    Stats.mk (Stats.created s) (S (Stats.reused s)) (Stats.destroyed s))).

Definition countDestroyed : M unit :=
  modify (withPoolStats (fun s =>
    Stats.mk (Stats.created s) (Stats.reused s) (S (Stats.destroyed s)))).

(** A new object literal: the reference to it is the next free index. *)
Definition alloc (item : PoolItem) : M Ref :=
  fun st => (Returned (length (objects st)),
             withObjects (fun os => os ++ [item]) st).

(** Reading through a reference; a reference to no object stands for
    [undefined], on which a property read throws. *)
Definition read (r : Ref) : M PoolItem :=
  fun st =>
    match objects st !! r with
    | Some item => (Returned item, st)
    | None => (Thrown TypeError, st)
    end.

(** Assigning properties of the object behind a reference. *)
Definition write (r : Ref) (item : PoolItem) : M unit :=
  modify (withObjects (fun os => <[r := item]> os)).

(** [config.close()] *)
Definition close (h : Handle) : M unit :=
  modify (fun st =>
    mkService (objects st) (configPool st) (poolSize st) (poolStats st)
      (sdkCalls st) (h :: closedConfigs st) (console st)).

(** [this.configPool.forEach(f)] *)
Fixpoint forEach (f : Ref -> M unit) (refs : list Ref) : M unit :=
  match refs with
  | [] => ret tt
  | r :: refs' => f r ;; forEach f refs'
  end.

(** [for (let i = 0; i < n; i++) body] *)
Fixpoint times (n : nat) (body : M unit) : M unit :=
  match n with
  | O => ret tt
  | S n' => body ;; times n' body
  end.

(** [item => !item.inUse] on a reference of the pool array. *)
Definition isAvailable (st : SpeechService) (r : Ref) : bool :=
  match objects st !! r with
  | Some item => negb (inUse item)
  | None => false
  end.

(** [5 * 60 * 1000] *)
Definition maxAge : Z := 5 * 60 * 1000.

(** [!item.inUse && (now - item.lastUsed) > maxAge] *)
Definition isStale (now : Z) (item : PoolItem) : bool :=
  negb (inUse item) && (maxAge <? now - lastUsed item).

Section Sdk.
Variable sdkThrows : nat -> bool.

(** [sdk.SpeechConfig.fromSubscription(this.speechKey, this.region)] *)
Definition fromSubscription : M Handle :=
  fun st =>
    let n := sdkCalls st in
    let st' :=
      mkService (objects st) (configPool st) (poolSize st) (poolStats st)
        (S n) (closedConfigs st) (console st) in
    if sdkThrows n then (Thrown SdkError, st') else (Returned n, st').

Definition initializeConfigPool (now : Z) : M unit :=
  log LogCreatingPool ;;
  size <- (fun st => (Returned (poolSize st), st)) ;;
  times size
    (config <- fromSubscription ;;
     r <- alloc (mkItem config false false now now) ;;
     modify (withConfigPool (fun refs => refs ++ [r])) ;;
     countCreated).

Definition getConfigFromPool (now : Z) : M Ref :=
  fun st =>
    match List.find (isAvailable st) (configPool st) with
    | None =>
        (log LogAllInUse ;;
         config <- fromSubscription ;;
         r <- alloc (mkItem config true true now now) ;;
         countCreated ;;
         ret r) st
    | Some r =>
        (item <- read r ;;
         write r (mkItem (config item) true (temporary item) (created item)
                    now) ;;
         countReused ;;
         ret r) st
    end.

Definition returnConfigToPool (poolItem : Ref) (now : Z) : M unit :=
  item <- read poolItem ;;
  if temporary item then
    close (config item) ;;
    countDestroyed
  else
    write poolItem
      (mkItem (config item) false (temporary item) (created item) now).

(** The callback of [forEach] in [performPoolMaintenance]. *)
Definition refreshIfStale (now : Z) (r : Ref) : M unit :=
  item <- read r ;;
  if isStale now item then
    close (config item) ;;
    config' <- fromSubscription ;;
    write r (mkItem config' (inUse item) (temporary item) now now) ;;
    log LogRefreshed
  else ret tt.

Definition performPoolMaintenance (now : Z) : M unit :=
  fun st => forEach (refreshIfStale now) (configPool st) st.

(** One call on the pool; the state it leaves, whether it returned or
    threw. *)
Inductive Call : Type :=
| CallAcquire (now : Z)
| CallRelease (poolItem : Ref) (now : Z)
| CallMaintenance (now : Z).

Definition step (st : SpeechService) (c : Call) : SpeechService :=
  match c with
  | CallAcquire now => snd (getConfigFromPool now st)
  | CallRelease poolItem now => snd (returnConfigToPool poolItem now st)
  | CallMaintenance now => snd (performPoolMaintenance now st)
  end.

Definition run (st : SpeechService) (calls : list Call) : SpeechService :=
  fold_left step calls st.

End Sdk.

(** Every reference of the pool array is to a distinct, non-temporary item,
    and every other item is a temporary one. *)
Definition poolWf (st : SpeechService) : Prop :=
  NoDup (configPool st)
  /\ (forall r, r ∈ configPool st ->
        exists item, objects st !! r = Some item /\ temporary item = false)
  /\ (forall r item, objects st !! r = Some item ->
        temporary item = false -> r ∈ configPool st).

(** [st'] comes after [st]: the pool array is the same, the items of [st]
    are still there with their [temporary] property, and every newer item
    is a temporary one. *)
Definition extends (st st' : SpeechService) : Prop :=
  configPool st' = configPool st
  /\ poolSize st' = poolSize st
  /\ (length (objects st) <= length (objects st'))%nat
  /\ (forall r item, objects st !! r = Some item ->
        exists item', objects st' !! r = Some item'
                      /\ temporary item' = temporary item)
  /\ (forall r item', objects st' !! r = Some item' ->
        (length (objects st) <= r)%nat -> temporary item' = true).

(** *** Two statements of the specification, as it words them

    "acquire() never fails": it returns a slot, and the slot is then in
    use. *)
Definition acquireNeverFails (sdkThrows : nat -> bool) (now : Z)
    (st : SpeechService) : Prop :=
  exists r st',
    getConfigFromPool sdkThrows now st = (Returned r, st')
    /\ exists item, objects st' !! r = Some item /\ inUse item = true.

(** "If refreshing one stale slot fails, the sweep still processes every
    other slot": after the sweep, the handle of every item that was stale
    other than the failing item [failed] has been closed for replacement. *)
Definition sweepIsolatesFailure (sdkThrows : nat -> bool) (now : Z)
    (failed : Ref) (st : SpeechService) : Prop :=
  let st' := snd (performPoolMaintenance sdkThrows now st) in
  forall r item, r ∈ configPool st -> r <> failed ->
    objects st !! r = Some item -> isStale now item = true ->
    config item ∈ closedConfigs st'.

End Pool.

(** ** [OptimizedSpeechService] around its pool: statistics, health,
    initialization and shutdown *)
Module Speech.
Import Pool.
Local Open Scope pool_scope.

Module PoolStats.
(** What [getPoolStats] returns.  [reuseRate] is the quotient of the two
    numbers when it is [Some], and the literal [0] when it is [None]. *)
Record t : Type := mk {
  poolSize : nat;
  inUse : nat;
  available : nat;
  created : nat;
  reused : nat;
  destroyed : nat;
  reuseRate : option (nat * nat)
}.
End PoolStats.

(** [item => item.inUse] on a reference of the pool array. *)
Definition isInUse (st : SpeechService) (r : Ref) : bool :=
  match objects st !! r with
  | Some item => inUse item
  | None => false
  end.

Definition getPoolStats (st : SpeechService) : PoolStats.t :=
  let inUse := length (List.filter (isInUse st) (configPool st)) in
  let available := length (List.filter (isAvailable st) (configPool st)) in
  PoolStats.mk (poolSize st) inUse available
    (Stats.created (poolStats st)) (Stats.reused (poolStats st))
    (Stats.destroyed (poolStats st))
    (if (0 <? Stats.created (poolStats st))%nat
     then Some (Stats.reused (poolStats st),
                (Stats.created (poolStats st) + Stats.reused (poolStats st))%nat)
     else None).

(** The console lines of [initialize] and [close], which the pool's
    [LogLine] does not have; they are kept in a list of their own. *)
Inductive Line : Type :=
| LineInitialized (poolSize : nat)
| LineInitializeFailed
| LineClosing.

(** How [initialize] can fail: with its own error on missing credentials,
    or with what the pool raised. *)
Inductive Failure : Type :=
| MissingCredentials
| Raised (e : Exn).

(** The service object: the pool state, [this.initialized], and whether
    [this.speechKey] and [this.region] are both set. *)
Record Instance : Type := mkInstance {
  service : SpeechService;
  initialized : bool;
  credentials : bool;
  lines : list Line
}.

Definition newInstance (credentials : bool) : Instance :=
  mkInstance constructor false credentials [].

(** [checkHealth()] *)
Definition checkHealth (inst : Instance) : bool :=
  if negb (initialized inst) then false
  else existsb (isAvailable (service inst)) (configPool (service inst)).

(** [close()]: every config of the pool array is closed, then the array
    is replaced by an empty one. *)
Definition close (inst : Instance) : option Exn * Instance :=
  let closing := lines inst ++ [LineClosing] in
  match forEach (fun r => item <- read r ;; Pool.close (config item))
          (configPool (service inst)) (service inst) with
  | (Returned _, st) =>
      (None,
       mkInstance (withConfigPool (fun _ => []) st) false (credentials inst)
         closing)
  | (Thrown e, st) =>
      (Some e, mkInstance st (initialized inst) (credentials inst) closing)
  end.

Section Sdk.
Variable sdkThrows : nat -> bool.

(** The body of the loop of [initializeConfigPool], on its own. *)
Definition loopBody (now : Z) : M unit :=
  config <- fromSubscription sdkThrows ;;
  r <- alloc (mkItem config false false now now) ;;
  modify (withConfigPool (fun refs => refs ++ [r])) ;;
  countCreated.

(** [initialize()]; [None] is a normal return. *)
Definition initialize (now : Z) (inst : Instance)
    : option Failure * Instance :=
  if initialized inst then (None, inst)
  else if negb (credentials inst) then
    (Some MissingCredentials,
     mkInstance (service inst) false (credentials inst)
       (lines inst ++ [LineInitializeFailed]))
  else
    match initializeConfigPool sdkThrows now (service inst) with
    | (Returned _, st) =>
        (None,
         mkInstance st true (credentials inst)
           (lines inst ++ [LineInitialized (poolSize st)]))
    | (Thrown e, st) =>
        (Some (Raised e),
         mkInstance st false (credentials inst)
           (lines inst ++ [LineInitializeFailed]))
    end.

End Sdk.

(** The item behind [r] is held: it exists and is marked in use. *)
Definition held (st : SpeechService) (r : Ref) : Prop :=
  exists item, objects st !! r = Some item /\ inUse item = true.

(** Whether a call is a release of the item [r]. *)
Definition isReleaseOf (r : Ref) (c : Call) : bool :=
  match c with
  | CallRelease r' _ => Nat.eqb r' r
  | _ => false
  end.

Definition isAcquire (c : Call) : bool :=
  match c with
  | CallAcquire _ => true
  | _ => false
  end.

(** The items that [initializeConfigPool] makes with [n] constructor
    calls numbered from [first]. *)
Definition pooledItems (first n : nat) (now : Z) : list PoolItem :=
  map (fun k : nat => mkItem (first + k) false false now now) (seq 0 n).

End Speech.

(** ** Concrete runs of the service, with the real digest *)
Module Examples.
Import Cache.

(** Question [k] of session "sess1", asked at time [k], answered by [k]. *)
Definition question (k : nat) : KeyInput * nat * Z :=
  (ForResponse ("q" +:+ pretty k) "sess1", k, Z.of_nat k).

Definition questionsFrom (k n : nat) : list (KeyInput * nat * Z) :=
  map question (seq k n).

(** The questions "q1" .. "qn". *)
Definition questions (n : nat) : list (KeyInput * nat * Z) :=
  questionsFrom 1 n.

(** A service whose response tier was filled to its capacity. *)
Definition fullResponses : CacheService nat :=
  run MD5.md5_hex constructor (setCalls (questions 100)).

(** An SDK whose constructor never throws, and one whose constructor
    throws at its call number [k] (counting from 0) and at no other. *)
Definition sdkReliable : nat -> bool := fun _ => false.

Definition sdkFailsAt (k : nat) : nat -> bool := fun n => Nat.eqb n k.

(** The pool as its initialization at time 0 leaves it. *)
Definition freshPool : Pool.SpeechService :=
  snd (Pool.initializeConfigPool sdkReliable 0 Pool.constructor).

(** The pool with all its five items acquired, under an SDK whose
    constructor throws at its call number 5: the five calls of the
    initialization are behind it, the next call is the one that throws. *)
Definition exhaustedPool : Pool.SpeechService :=
  Pool.run (sdkFailsAt 5)
    (snd (Pool.initializeConfigPool (sdkFailsAt 5) 0 Pool.constructor))
    (map Pool.CallAcquire [10; 11; 12; 13; 14]).

(** Eight acquisitions on a pool of five, all of them released, then a
    maintenance sweep six minutes later. *)
Definition overflowCalls : list Pool.Call :=
  map Pool.CallAcquire [10; 11; 12; 13; 14; 15; 16; 17]
  ++ map (fun r : nat => Pool.CallRelease r 20) (seq 0 8)
  ++ [Pool.CallMaintenance (6 * 60 * 1000 + 20)].

(** A buffer of 1024 bytes, all of them [c]. *)
Definition kilobyte (c : ascii) : string :=
  string_of_list_ascii (repeat c 1024).

(** The questions "q1" .. "q101" stored one after the other, each followed
    by a get of "q1". *)
Definition askedAgain : list (@Call nat) :=
  flat_map
    (fun e : KeyInput * nat * Z =>
       [CallSet (fst (fst e)) (snd (fst e)) (snd e);
        CallGet (fst (fst (question 1))) (snd e)])
    (questions 101).

(** A service with credentials whose pool was initialized at time 0. *)
Definition readyInstance : Speech.Instance :=
  Speech.mkInstance freshPool true true [Speech.LineInitialized 5].

End Examples.

(** * Properties *)

(** ** The digest on the test vectors of RFC 1321 *)
Module MD5Facts.
Import MD5.

Example md5_empty : md5_hex "" = "d41d8cd98f00b204e9800998ecf8427e"%string.
Proof. vm_compute. reflexivity. Qed.

Example md5_abc : md5_hex "abc" = "900150983cd24fb0d6963f7d28e17f72"%string.
Proof. vm_compute. reflexivity. Qed.

Example md5_two_blocks :
  md5_hex "12345678901234567890123456789012345678901234567890123456789012345678901234567890"
  = "57edf4a22be3c955ac49da2e2107b67a"%string.
Proof. vm_compute. reflexivity. Qed.

End MD5Facts.

(** ** The ordered map *)
Module JsMapFacts.
Import JsMap.

Section Facts.
Context {A : Type}.
Implicit Types (m : JsMap.t A) (k : string) (a : A).

Ltac eqb_cases k k' :=
  destruct (String.eqb_spec k k') as [?|?]; subst; simpl; try congruence.

Lemma get_set_eq k a m : get k (set k a m) = Some a.
Proof.
  induction m as [|[k' a'] m IH]; simpl.
  - by rewrite String.eqb_refl.
  - eqb_cases k k'.
    + by rewrite String.eqb_refl.
    + by destruct (String.eqb_spec k k').
Qed.

Lemma get_set_ne k k' a m : k <> k' -> get k' (set k a m) = get k' m.
Proof.
  intros Hne. induction m as [|[k0 a0] m IH]; simpl.
  - by destruct (String.eqb_spec k' k); [subst|].
  - eqb_cases k k0.
    + by destruct (String.eqb_spec k' k0); [subst|].
    + by rewrite IH.
Qed.

Lemma get_None_keys k m : get k m = None <-> k ∉ keys m.
Proof.
  induction m as [|[k0 a0] m IH]; simpl.
  - split; [intros _; apply not_elem_of_nil | done].
  - rewrite not_elem_of_cons. eqb_cases k k0.
    + split; [done | by intros [? _]].
    + rewrite IH. tauto.
Qed.

Lemma get_Some_keys k a m : get k m = Some a -> k ∈ keys m.
Proof.
  intros H. destruct (decide (k ∈ keys m)) as [|Hn]; [done|].
  apply get_None_keys in Hn. congruence.
Qed.

Lemma set_new k a m : get k m = None -> set k a m = m ++ [(k, a)].
Proof.
  induction m as [|[k0 a0] m IH]; simpl; [done|].
  eqb_cases k k0. intros H. by rewrite IH.
Qed.

Lemma size_set_resident k a m :
  get k m <> None -> size (set k a m) = size m.
Proof.
  unfold size. induction m as [|[k0 a0] m IH]; simpl; [done|].
  eqb_cases k k0. intros H. by rewrite IH.
Qed.

Lemma size_set_new k a m :
  get k m = None -> size (set k a m) = S (size m).
Proof.
  intros H. rewrite set_new by done. unfold size.
  rewrite length_app. simpl. lia.
Qed.

Lemma size_set_le k a m : (size (set k a m) <= S (size m))%nat.
Proof.
  destruct (get k m) eqn:E.
  - rewrite size_set_resident by congruence. lia.
  - rewrite size_set_new by done. lia.
Qed.

Lemma keys_set_resident k a m :
  get k m <> None -> keys (set k a m) = keys m.
Proof.
  unfold keys. induction m as [|[k0 a0] m IH]; simpl; [done|].
  eqb_cases k k0. intros H. by rewrite IH.
Qed.

Lemma delete_first_cons k a m : delete_first ((k, a) :: m) = m.
Proof. unfold delete_first. simpl. by rewrite String.eqb_refl. Qed.

Lemma size_delete_first m : size (delete_first m) = pred (size m).
Proof. destruct m as [|[k a] m]; [done|]. by rewrite delete_first_cons. Qed.

Lemma get_delete_ne k k' m : k <> k' -> get k' (delete k m) = get k' m.
Proof.
  intros Hne. induction m as [|[k0 a0] m IH]; simpl; [done|].
  eqb_cases k k0.
  - by destruct (String.eqb_spec k' k0); [subst|].
  - by rewrite IH.
Qed.

Lemma get_delete_eq k m : NoDup (keys m) -> get k (delete k m) = None.
Proof.
  induction m as [|[k0 a0] m IH]; simpl; [done|].
  intros Hnd. apply NoDup_cons in Hnd as [Hnotin Hnd].
  eqb_cases k k0.
  - by apply get_None_keys.
  - destruct (String.eqb_spec k k0); [done|]. by apply IH.
Qed.

Lemma keys_set_new k a m : get k m = None -> keys (set k a m) = keys m ++ [k].
Proof. intros H. rewrite set_new by done. unfold keys. by rewrite map_app. Qed.

Lemma NoDup_keys_set k a m : NoDup (keys m) -> NoDup (keys (set k a m)).
Proof.
  intros Hnd. destruct (get k m) eqn:E.
  - rewrite keys_set_resident by congruence. done.
  - rewrite keys_set_new by done. apply NoDup_app. split_and!; [done| |].
    + intros x Hx ->%list_elem_of_singleton. by apply get_None_keys in E.
    + apply NoDup_singleton.
Qed.

Lemma elem_of_keys_delete k k' m : k' ∈ keys (delete k m) -> k' ∈ keys m.
Proof.
  induction m as [|[k0 a0] m IH]; simpl; [done|].
  eqb_cases k k0.
  - intros H. apply elem_of_cons. by right.
  - rewrite !elem_of_cons. intros [?|?]; [by left | right; by apply IH].
Qed.

Lemma NoDup_keys_delete k m : NoDup (keys m) -> NoDup (keys (delete k m)).
Proof.
  induction m as [|[k0 a0] m IH]; simpl; [done|].
  intros [Hnotin Hnd]%NoDup_cons. eqb_cases k k0.
  apply NoDup_cons. split; [|by apply IH].
  intros Hin. by apply Hnotin, (elem_of_keys_delete k).
Qed.

Lemma NoDup_keys_delete_first m :
  NoDup (keys m) -> NoDup (keys (delete_first m)).
Proof.
  unfold delete_first. destruct (first_key m); [|done].
  apply NoDup_keys_delete.
Qed.

Lemma elem_of_keys_filter (f : string * A -> bool) k m :
  k ∈ keys (List.filter f m) -> k ∈ keys m.
Proof.
  induction m as [|[k0 a0] m IH]; simpl; [done|].
  destruct (f (k0, a0)); simpl; rewrite !elem_of_cons; intuition.
Qed.

Lemma NoDup_keys_filter (f : string * A -> bool) m :
  NoDup (keys m) -> NoDup (keys (List.filter f m)).
Proof.
  induction m as [|[k0 a0] m IH]; simpl; [done|].
  intros [Hnotin Hnd]%NoDup_cons.
  destruct (f (k0, a0)); simpl; [|by apply IH].
  apply NoDup_cons. split; [|by apply IH].
  intros Hin. by apply Hnotin, (elem_of_keys_filter f).
Qed.

Lemma get_elem_of k a m : NoDup (keys m) -> (k, a) ∈ m -> get k m = Some a.
Proof.
  induction m as [|[k0 a0] m IH]; simpl.
  - intros _ Hin. by apply elem_of_nil in Hin.
  - intros [Hnotin Hnd]%NoDup_cons [Heq|Hin]%elem_of_cons.
    + injection Heq as -> ->. by rewrite String.eqb_refl.
    + destruct (String.eqb_spec k k0) as [->|Hne]; [|by apply IH].
      exfalso. apply Hnotin, list_elem_of_In.
      apply list_elem_of_In, (in_map fst) in Hin. exact Hin.
Qed.

Lemma size_sweep_le (dead : A -> bool) m :
  (size (fst (sweep dead m)) <= size m)%nat.
Proof. unfold sweep, size. simpl. apply List.filter_length_le. Qed.

End Facts.

End JsMapFacts.

(** ** The cache service *)
Module CacheFacts.
Import JsMap JsMapFacts Cache.

Section Facts.
Variable md5 : string -> string.
Context {V : Type}.
Implicit Types (svc : CacheService V) (i : KeyInput) (t : Tier)
  (cache : JsMap.t (Entry V)).

(** *** Each setter and getter acts on its own tier only *)

Lemma tierCache_cacheSet_same i value now svc :
  tierCache (tierOf i) (cacheSet md5 i value now svc)
  = store (maxSize (tierOf i)) (TTL (tierOf i)) (keyOf md5 i) value now
      (tierCache (tierOf i) svc).
Proof. by destruct i. Qed.

Lemma tierCache_cacheSet_other i value now svc t :
  t <> tierOf i ->
  tierCache t (cacheSet md5 i value now svc) = tierCache t svc.
Proof. by destruct i, t. Qed.

Lemma fst_cacheGet i now svc :
  fst (cacheGet md5 i now svc)
  = live now (get (keyOf md5 i) (tierCache (tierOf i) svc)).
Proof.
  destruct i; simpl;
    unfold getResponse, getLanguage, getTranscript;
    by destruct (live _ _).
Qed.

Lemma tierCache_cacheGet i now svc t :
  tierCache t (snd (cacheGet md5 i now svc)) = tierCache t svc.
Proof.
  destruct i; simpl;
    unfold getResponse, getLanguage, getTranscript;
    destruct (live _ _); by destruct t.
Qed.

Lemma cacheGet_miss i now svc :
  fst (cacheGet md5 i now svc) = None -> cacheGet md5 i now svc = (None, svc).
Proof.
  destruct i; simpl;
    unfold getResponse, getLanguage, getTranscript;
    by destruct (live _ _).
Qed.

(** *** The eviction step and the size of a tier *)

Lemma size_evictIfFull max cache :
  size (evictIfFull max cache)
  = if (max <=? size cache)%nat then pred (size cache) else size cache.
Proof.
  unfold evictIfFull. destruct (max <=? size cache)%nat; [|done].
  apply size_delete_first.
Qed.

Lemma size_store_le max ttl key value now cache :
  (1 <= max)%nat -> (size cache <= max)%nat ->
  (size (store max ttl key value now cache) <= max)%nat.
Proof.
  intros Hmax Hsize. unfold store.
  etransitivity; [apply size_set_le|].
  rewrite size_evictIfFull.
  destruct (Nat.leb_spec max (size cache)); lia.
Qed.

Lemma maxSize_pos t : (1 <= maxSize t)%nat.
Proof. destruct t; simpl; lia. Qed.

Lemma withinCapacity_constructor : withinCapacity (@constructor V).
Proof. intros t. destruct t; simpl; lia. Qed.

Lemma withinCapacity_step svc (c : Call) :
  withinCapacity svc -> withinCapacity (step md5 svc c).
Proof.
  intros Hsvc t. destruct c as [i value now|i now|now|]; simpl.
  - destruct (decide (t = tierOf i)) as [->|Hne].
    + rewrite tierCache_cacheSet_same.
      apply size_store_le; [apply maxSize_pos | apply Hsvc].
    + rewrite tierCache_cacheSet_other by done. apply Hsvc.
  - rewrite tierCache_cacheGet. apply Hsvc.
  - unfold clearExpired.
    pose proof (size_sweep_le (expired now) (responseCache svc)) as H1.
    pose proof (size_sweep_le (expired now) (languageCache svc)) as H2.
    pose proof (size_sweep_le (expired now) (transcriptCache svc)) as H3.
    pose proof (Hsvc Response) as B1. pose proof (Hsvc Language) as B2.
    pose proof (Hsvc Transcript) as B3. simpl in *.
    destruct (0 <? _)%nat; destruct t; simpl; lia.
  - destruct t; simpl; lia.
Qed.

Lemma withinCapacity_trace svc (calls : list Call) :
  withinCapacity svc -> Forall withinCapacity (trace md5 svc calls).
Proof.
  revert svc. induction calls as [|c calls IH]; intros svc Hsvc; simpl.
  - constructor.
  - constructor; [|apply IH]; by apply withinCapacity_step.
Qed.

(** C1.  Capacity invariant: starting from a new service, after every call
    of any sequence of calls (sets on any tier, and also gets and the two
    clearing operations) the response tier holds at most 100 entries, the
    language tier at most 50 and the transcript tier at most 30. *)
Theorem capacity_invariant (calls : list Call) :
  Forall
    (fun svc =>
       (size (responseCache svc) <= 100)%nat
       /\ (size (languageCache svc) <= 50)%nat
       /\ (size (transcriptCache svc) <= 30)%nat)
    (trace md5 constructor calls).
Proof.
  eapply Forall_impl;
    [apply withinCapacity_trace, withinCapacity_constructor|].
  intros svc Hsvc.
  exact (conj (Hsvc Response) (conj (Hsvc Language) (Hsvc Transcript))).
Qed.

(** *** Reading back what was stored *)

Lemma get_store max ttl key value now cache :
  get key (store max ttl key value now cache)
  = Some (mkEntry value (now + ttl)).
Proof. apply get_set_eq. Qed.

Lemma TTL_pos t : 0 < TTL t.
Proof. destruct t; simpl; lia. Qed.

(** C7.  TTL correctness, for every tier: after a set at time [t], a get
    of the same input any time after [t + ttl] is a miss that changes
    nothing (the expired entry is still resident, and nothing is
    logged), a get any time before [t + ttl] returns the value, and every
    miss of every getter leaves the service as it was. *)
Theorem ttl_correctness i (value : V) (t eps : Z) svc :
  0 < eps ->
  let svc' := cacheSet md5 i value t svc in
  cacheGet md5 i (t + TTL (tierOf i) + eps) svc' = (None, svc')
  /\ get (keyOf md5 i) (tierCache (tierOf i) svc')
     = Some (mkEntry value (t + TTL (tierOf i)))
  /\ fst (cacheGet md5 i (t + TTL (tierOf i) - eps) svc') = Some value
  /\ (forall j now (s : CacheService V),
        fst (cacheGet md5 j now s) = None -> cacheGet md5 j now s = (None, s)).
Proof.
  intros Heps svc'.
  assert (Hget : get (keyOf md5 i) (tierCache (tierOf i) svc')
                 = Some (mkEntry value (t + TTL (tierOf i)))).
  { subst svc'. rewrite tierCache_cacheSet_same. apply get_store. }
  repeat split.
  - apply cacheGet_miss. rewrite fst_cacheGet, Hget. simpl.
    destruct (Z.ltb_spec (t + TTL (tierOf i) + eps) (t + TTL (tierOf i)));
      [lia | done].
  - exact Hget.
  - rewrite fst_cacheGet, Hget. simpl.
    destruct (Z.ltb_spec (t + TTL (tierOf i) - eps) (t + TTL (tierOf i)));
      [done | lia].
  - intros j now s. apply cacheGet_miss.
Qed.

(** *** Tiers stay maps *)

Lemma NoDup_keys_store max ttl key value now cache :
  NoDup (keys cache) -> NoDup (keys (store max ttl key value now cache)).
Proof.
  intros H. apply NoDup_keys_set. unfold evictIfFull.
  destruct (max <=? size cache)%nat; [by apply NoDup_keys_delete_first|done].
Qed.

Lemma wellFormed_constructor : wellFormed (@constructor V).
Proof. intros t. destruct t; simpl; apply NoDup_nil_2. Qed.

Lemma wellFormed_step svc (c : Call) :
  wellFormed svc -> wellFormed (step md5 svc c).
Proof.
  intros Hsvc t. destruct c as [i value now|i now|now|]; simpl.
  - destruct (decide (t = tierOf i)) as [->|Hne].
    + rewrite tierCache_cacheSet_same. apply NoDup_keys_store, Hsvc.
    + rewrite tierCache_cacheSet_other by done. apply Hsvc.
  - rewrite tierCache_cacheGet. apply Hsvc.
  - pose proof (Hsvc Response) as B1. pose proof (Hsvc Language) as B2.
    pose proof (Hsvc Transcript) as B3.
    unfold clearExpired, sweep. simpl in *.
    destruct (0 <? _)%nat; destruct t; simpl; by apply NoDup_keys_filter.
  - destruct t; simpl; apply NoDup_nil_2.
Qed.

Lemma wellFormed_run (calls : list Call) svc :
  wellFormed svc -> wellFormed (run md5 svc calls).
Proof.
  revert svc. induction calls as [|c calls IH]; intros svc Hsvc; simpl;
    [done|]. by apply IH, wellFormed_step.
Qed.

(** *** Setting a resident key *)

Lemma store_below max ttl key value now cache :
  (size cache < max)%nat ->
  store max ttl key value now cache
  = set key (mkEntry value (now + ttl)) cache.
Proof.
  intros H. unfold store, evictIfFull.
  by destruct (Nat.leb_spec max (size cache)); [lia|].
Qed.

Lemma store_full max ttl key value now oldest cache :
  (max <= S (size cache))%nat ->
  store max ttl key value now (oldest :: cache)
  = set key (mkEntry value (now + ttl)) cache.
Proof.
  intros H. unfold store, evictIfFull. destruct oldest as [k0 e0].
  change (size ((k0, e0) :: cache)) with (S (size cache)).
  destruct (Nat.leb_spec max (S (size cache))); [|lia].
  by rewrite delete_first_cons.
Qed.

(** C2, as the code has it.  Setting a key that is resident in its tier,
    in any state the service can reach: a get before the new expiry
    returns the new value; below capacity the entry is overwritten in
    place, with the size and the resident keys unchanged; at capacity the
    oldest-inserted entry is evicted first although the key is resident,
    so that the size is unchanged when the key was itself the oldest entry
    and one less, with the oldest entry gone, otherwise. *)
Theorem overwrite_resident (calls : list Call) i (value : V) (now : Z) :
  let svc := run md5 constructor calls in
  let tier := tierCache (tierOf i) svc in
  let svc' := cacheSet md5 i value now svc in
  let tier' := tierCache (tierOf i) svc' in
  get (keyOf md5 i) tier <> None ->
  (forall now', now' < now + TTL (tierOf i) ->
     fst (cacheGet md5 i now' svc') = Some value)
  /\ ((size tier < maxSize (tierOf i))%nat ->
      size tier' = size tier /\ keys tier' = keys tier)
  /\ ((maxSize (tierOf i) <= size tier)%nat ->
      exists oldest, first_key tier = Some oldest
        /\ (oldest = keyOf md5 i -> size tier' = size tier)
        /\ (oldest <> keyOf md5 i ->
            size tier' = pred (size tier) /\ get oldest tier' = None)).
Proof.
  intros svc tier svc' tier' Hres.
  assert (Hnd : NoDup (keys tier))
    by apply (wellFormed_run calls), wellFormed_constructor.
  assert (Htier' : tier' = store (maxSize (tierOf i)) (TTL (tierOf i))
                             (keyOf md5 i) value now tier)
    by apply tierCache_cacheSet_same.
  split_and!.
  - intros now' Hnow'. rewrite fst_cacheGet.
    fold tier'. rewrite Htier', get_store. simpl.
    by destruct (Z.ltb_spec now' (now + TTL (tierOf i))); [|lia].
  - intros Hlt. rewrite Htier', store_below by done.
    by rewrite size_set_resident, keys_set_resident.
  - intros Hfull. pose proof (maxSize_pos (tierOf i)) as Hpos.
    destruct tier as [|[oldest e] rest] eqn:E;
      [unfold size in *; simpl in *; lia|].
    exists oldest. split; [done|].
    rewrite Htier', store_full by (unfold size in *; simpl in *; lia).
    apply NoDup_cons in Hnd as [Hnotin Hnd]. fold (keys rest) in Hnotin, Hnd.
    simpl in Hres. split.
    + intros ->. rewrite size_set_new by by apply get_None_keys. done.
    + intros Hne.
      destruct (String.eqb_spec (keyOf md5 i) oldest) as [|_]; [congruence|].
      rewrite size_set_resident by done. split; [done|].
      rewrite get_set_ne by congruence. by apply get_None_keys.
Qed.

(** *** Eviction order *)

Lemma run_setCalls_tier t (entries : list (KeyInput * V * Z)) svc :
  Forall (fun e => tierOf (fst (fst e)) = t) entries ->
  tierCache t (run md5 svc (setCalls entries))
  = fold_left (storeEntry md5 t) entries (tierCache t svc).
Proof.
  revert svc. induction entries as [|[[i value] now] entries IH];
    intros svc Hall; simpl; [done|].
  apply Forall_cons in Hall as [Hi Hall]. simpl in Hi. subst t.
  rewrite IH by done. f_equal. apply tierCache_cacheSet_same.
Qed.

Lemma keys_entryOf (entries : list (KeyInput * V * Z)) :
  keys (map (entryOf md5) entries)
  = map (fun e => keyOf md5 (fst (fst e))) entries.
Proof. unfold keys. rewrite map_map. done. Qed.

Lemma size_entryOf (entries : list (KeyInput * V * Z)) :
  size (map (entryOf md5) entries) = length entries.
Proof. apply length_map. Qed.

(** Storing entries with distinct keys into an empty tier leaves the last
    [maxSize] of them, in the order of insertion. *)
Lemma fifo_resident t (entries : list (KeyInput * V * Z)) :
  Forall (fun e => tierOf (fst (fst e)) = t) entries ->
  NoDup (map (fun e => keyOf md5 (fst (fst e))) entries) ->
  fold_left (storeEntry md5 t) entries []
  = map (entryOf md5) (drop (length entries - maxSize t) entries).
Proof.
  pose proof (maxSize_pos t) as Hpos.
  induction entries as [|e entries IH] using rev_ind; intros Hall Hnd;
    [done|].
  apply Forall_app in Hall as [Hall He]. apply Forall_inv in He.
  rewrite map_app in Hnd. apply NoDup_app in Hnd as (Hnd & Hfresh & _).
  rewrite fold_left_app, (IH Hall Hnd). simpl.
  rewrite length_app. simpl.
  assert (Hentry : (keyOf md5 (fst (fst e)),
                    mkEntry (snd (fst e)) (snd e + TTL t)) = entryOf md5 e)
    by (unfold entryOf; by rewrite He).
  assert (Hnew : forall n,
    get (keyOf md5 (fst (fst e))) (map (entryOf md5) (drop n entries)) = None).
  { intros n. apply get_None_keys. rewrite keys_entryOf. intros Hin.
    apply (Hfresh (keyOf md5 (fst (fst e)))); [|apply list_elem_of_here].
    apply list_elem_of_In in Hin. apply in_map_iff in Hin as (x & Hx & Hin).
    apply list_elem_of_In, in_map_iff. exists x. split; [done|].
    apply list_elem_of_In, (subseteq_drop n), list_elem_of_In, Hin. }
  unfold storeEntry.
  destruct (Nat.lt_ge_cases (length entries) (maxSize t)) as [Hlt|Hge].
  - replace (length entries - maxSize t)%nat with 0%nat by lia.
    replace (length entries + 1 - maxSize t)%nat with 0%nat by lia.
    rewrite !drop_0, store_below by (rewrite size_entryOf; lia).
    rewrite set_new by (specialize (Hnew 0%nat); by rewrite drop_0 in Hnew).
    by rewrite map_app, Hentry.
  - replace (length entries + 1 - maxSize t)%nat
      with (S (length entries - maxSize t)) by lia.
    rewrite drop_app_le by lia.
    destruct (lookup_lt_is_Some_2 entries (length entries - maxSize t))
      as [x Hx]; [lia|].
    rewrite (drop_S _ _ _ Hx). simpl.
    rewrite store_full
      by (rewrite size_entryOf, length_drop; lia).
    rewrite set_new by apply Hnew.
    by rewrite map_app, Hentry.
Qed.

(** C6.  Eviction order, for every tier: storing [maxSize + 1] entries with
    distinct keys, in order, into a service whose tier is empty (a new
    service, for one) leaves the tier with all of them but the first,
    still in order; a get of the first one is a miss, and a get of the
    last one, before it expires, returns its value. *)
Theorem eviction_order t (first last : KeyInput * V * Z)
    (middle : list (KeyInput * V * Z)) svc0 :
  let entries := first :: middle ++ [last] in
  tierCache t svc0 = JsMap.empty ->
  length entries = S (maxSize t) ->
  Forall (fun e => tierOf (fst (fst e)) = t) entries ->
  NoDup (map (fun e => keyOf md5 (fst (fst e))) entries) ->
  let svc := run md5 svc0 (setCalls entries) in
  (forall now, fst (cacheGet md5 (fst (fst first)) now svc) = None)
  /\ (forall now, now < snd last + TTL t ->
        fst (cacheGet md5 (fst (fst last)) now svc) = Some (snd (fst last)))
  /\ tierCache t svc = map (entryOf md5) (middle ++ [last]).
Proof.
  intros entries Hempty Hlen Hall Hnd svc.
  assert (Htier : tierCache t svc = map (entryOf md5) (middle ++ [last])).
  { subst svc. rewrite run_setCalls_tier, Hempty by done.
    unfold JsMap.empty. rewrite fifo_resident by done. rewrite Hlen.
    by replace (S (maxSize t) - maxSize t)%nat with 1%nat by lia. }
  assert (Hfirst : tierOf (fst (fst first)) = t)
    by by apply Forall_cons in Hall as [? _].
  assert (Hlast : tierOf (fst (fst last)) = t).
  { apply Forall_cons in Hall as [_ Hall].
    apply Forall_app in Hall as [_ Hall]. by apply Forall_inv in Hall. }
  subst entries. simpl in Hnd. apply NoDup_cons in Hnd as [Hnotin Hnd].
  split_and!; [| |done].
  - intros now. rewrite fst_cacheGet, Hfirst, Htier.
    replace (get _ _) with (@None (Entry V)); [done|].
    symmetry. apply get_None_keys. by rewrite keys_entryOf.
  - intros now Hnow. rewrite fst_cacheGet, Hlast, Htier.
    rewrite (get_elem_of _ (snd (entryOf md5 last))).
    + simpl. rewrite Hlast.
      by destruct (Z.ltb_spec now (snd last + TTL t)); [|lia].
    + by rewrite keys_entryOf.
    + apply list_elem_of_In, in_map_iff. exists last. split; [done|].
      apply in_or_app. right. by left.
Qed.

(** *** The key of a response *)









End Facts.

(** *** The service on concrete inputs, with MD5 *)

(** The round trip of the specification: a response stored for session
    "sess1" is returned to it and not to session "sess2". *)
Example response_roundtrip :
  let svc := setResponse MD5.md5_hex "hello" "sess1" 7%nat 1000 constructor in
  fst (getResponse MD5.md5_hex "hello" "sess1" 2000 svc) = Some 7%nat
  /\ fst (getResponse MD5.md5_hex "hello" "sess2" 2000 svc) = None.
Proof. by vm_compute. Qed.

Example response_key_hello :
  keyOf MD5.md5_hex (ForResponse "hello" "sess1")
  = "response:fdfc8a7ea94ccbad970d921d6015f792"%string.
Proof. by vm_compute. Qed.

Lemma ttl_correctness_witness :
  0 < 1
  /\ cacheGet MD5.md5_hex (ForResponse "hello" "sess1")
       (1000 + TTL Response + 1)
       (cacheSet MD5.md5_hex (ForResponse "hello" "sess1") 7%nat 1000
          constructor)
     = (None,
        cacheSet MD5.md5_hex (ForResponse "hello" "sess1") 7%nat 1000
          constructor).
Proof.
  assert (Heps : 0 < 1) by lia.
  split; [exact Heps|].
  exact (proj1 (ttl_correctness MD5.md5_hex (ForResponse "hello" "sess1")
                  7%nat 1000 1 constructor Heps)).
Defined.

(** C2, as the specification words it, fails on a full tier: the response
    tier holds "q1" .. "q100"; setting "q2" again evicts "q1", so the tier
    shrinks to 99 entries. *)
Lemma overwrite_not_in_place :
  ~ overwritesInPlace MD5.md5_hex (ForResponse "q2" "sess1") 0%nat 200
      Examples.fullResponses.
Proof.
  intros H. destruct H as (_ & Hsize & _).
  - vm_compute. discriminate.
  - vm_compute in Hsize. discriminate.
Qed.

Lemma overwrite_resident_witness :
  get (keyOf MD5.md5_hex (ForResponse "q2" "sess1"))
    (tierCache (tierOf (ForResponse "q2" "sess1"))
       (run MD5.md5_hex constructor (setCalls (Examples.questions 100))))
  <> None
  /\ (forall now', now' < 200 + TTL (tierOf (ForResponse "q2" "sess1")) ->
      fst (cacheGet MD5.md5_hex (ForResponse "q2" "sess1") now'
             (cacheSet MD5.md5_hex (ForResponse "q2" "sess1") 0%nat 200
                (run MD5.md5_hex constructor
                   (setCalls (Examples.questions 100)))))
      = Some 0%nat).
Proof.
  assert (Hres :
    get (keyOf MD5.md5_hex (ForResponse "q2" "sess1"))
      (tierCache (tierOf (ForResponse "q2" "sess1"))
         (run MD5.md5_hex constructor (setCalls (Examples.questions 100))))
    <> None) by (vm_compute; discriminate).
  exact (conj Hres
           (proj1 (overwrite_resident MD5.md5_hex
                     (setCalls (Examples.questions 100))
                     (ForResponse "q2" "sess1") 0%nat 200 Hres))).
Defined.

Lemma eviction_order_witness :
  (tierCache Response (@constructor nat) = JsMap.empty
   /\ length (Examples.question 1
           :: Examples.questionsFrom 2 99 ++ [Examples.question 101])
      = S (maxSize Response)
   /\ Forall (fun e => tierOf (fst (fst e)) = Response)
        (Examples.question 1
         :: Examples.questionsFrom 2 99 ++ [Examples.question 101])
   /\ NoDup (map (fun e => keyOf MD5.md5_hex (fst (fst e)))
               (Examples.question 1
                :: Examples.questionsFrom 2 99 ++ [Examples.question 101])))
  /\ (forall now,
        fst (cacheGet MD5.md5_hex (fst (fst (Examples.question 1))) now
               (run MD5.md5_hex constructor
                  (setCalls
                     (Examples.question 1
                      :: Examples.questionsFrom 2 99
                         ++ [Examples.question 101]))))
        = None).
Proof.
  assert (Hlen : length (Examples.question 1
                 :: Examples.questionsFrom 2 99 ++ [Examples.question 101])
                 = S (maxSize Response)) by by vm_compute.
  assert (Hall : Forall (fun e => tierOf (fst (fst e)) = Response)
                   (Examples.question 1
                    :: Examples.questionsFrom 2 99
                       ++ [Examples.question 101])).
  { apply Forall_forall. intros e He.
    apply elem_of_cons in He as [->|He]; [done|].
    apply elem_of_app in He as [He|He].
    - apply list_elem_of_In, in_map_iff in He as (k & <- & _). done.
    - by apply list_elem_of_singleton in He as ->. }
  assert (Hnd : NoDup (map (fun e => keyOf MD5.md5_hex (fst (fst e)))
               (Examples.question 1
                :: Examples.questionsFrom 2 99 ++ [Examples.question 101]))).
  { apply (bool_decide_unpack _). by vm_compute. }
  exact (conj (conj eq_refl (conj Hlen (conj Hall Hnd)))
           (proj1 (eviction_order MD5.md5_hex Response (Examples.question 1)
                     (Examples.question 101) (Examples.questionsFrom 2 99)
                     constructor eq_refl Hlen Hall Hnd))).
Defined.


(** The answer stored for one of these pairs is served for the other. *)
Example colliding_pairs_share_entry :
  fst (getResponse MD5.md5_hex "a" "b:c" 2000
         (setResponse MD5.md5_hex "a:b" "c" 7%nat 1000 constructor))
  = Some 7%nat.
Proof. by vm_compute. Qed.


End CacheFacts.

(** ** Buffers *)
Module BufferFacts.

Lemma length_append (a b : string) :
  String.length (a ++ b) = (String.length a + String.length b)%nat.
Proof.
  induction a as [|c a IH]; [done|].
  change (S (String.length (a ++ b))
          = S (String.length a + String.length b)).
  by rewrite IH.
Qed.

Lemma append_nil_r (a : string) : (a ++ "")%string = a.
Proof.
  induction a as [|c a IH]; [done|].
  change (String c (a ++ "") = String c a). by rewrite IH.
Qed.

Lemma append_assoc (a b c : string) :
  ((a ++ b) ++ c)%string = (a ++ (b ++ c))%string.
Proof.
  induction a as [|x a IH]; [done|].
  change (String x ((a ++ b) ++ c) = String x (a ++ (b ++ c))).
  by rewrite IH.
Qed.

Lemma substring_all (n : nat) (s : string) :
  (String.length s <= n)%nat -> String.substring 0 n s = s.
Proof.
  revert n. induction s as [|c s IH]; intros [|n] H; cbn in *;
    [done|done|lia|].
  rewrite IH by lia. done.
Qed.

Lemma substring_prefix (h x : string) :
  String.substring 0 (String.length h) (h ++ x) = h.
Proof.
  induction h as [|c h IH].
  - by destruct x.
  - change (String c (String.substring 0 (String.length h) (h ++ x))
            = String c h).
    by rewrite IH.
Qed.

Lemma substring_skip (x t : string) (m : nat) :
  String.substring (String.length x) m (x ++ t) = String.substring 0 m t.
Proof.
  induction x as [|c x IH]; [done|].
  change (String.substring (String.length x) m (x ++ t)
          = String.substring 0 m t).
  apply IH.
Qed.

Lemma length_substring (n m : nat) (s : string) :
  String.length (String.substring n m s)
  = Nat.min m (String.length s - n).
Proof.
  revert n m. induction s as [|c s IH]; intros [|n] [|m]; cbn; try done.
  by rewrite IH, Nat.sub_0_r.
Qed.

(** [slice] never reads outside the buffer: whatever the indices, the
    result is no longer than the buffer. *)
Lemma length_slice start stop buf :
  (String.length (Buffer.slice start stop buf) <= String.length buf)%nat.
Proof. unfold Buffer.slice. rewrite length_substring. lia. Qed.

End BufferFacts.


(** ** The cache service, continued *)
Module CacheMoreFacts.
Import JsMap JsMapFacts Cache CacheFacts BufferFacts.

Section MapFacts.
Context {A : Type}.
Implicit Types (m : JsMap.t A) (k : string).

Lemma get_filter (f : string * A -> bool) k m :
  NoDup (keys m) ->
  get k (List.filter f m)
  = match get k m with
    | Some a => if f (k, a) then Some a else None
    | None => None
    end.
Proof.
  induction m as [|[k0 a0] m IH]; [done|].
  intros [Hnotin Hnd]%NoDup_cons. fold (keys m) in Hnotin, Hnd.
  cbn [List.filter get].
  destruct (String.eqb_spec k k0) as [->|Hne].
  - destruct (f (k0, a0)); cbn [get].
    + by rewrite String.eqb_refl.
    + apply get_None_keys. intros Hin.
      by apply Hnotin, (elem_of_keys_filter f).
  - destruct (f (k0, a0)); cbn [get].
    + destruct (String.eqb_spec k k0); [done|]. by apply IH.
    + by apply IH.
Qed.

Lemma size_delete_le k m : (size (delete k m) <= size m)%nat.
Proof.
  unfold size. induction m as [|[k0 a0] m IH]; simpl; [done|].
  destruct (String.eqb k k0); simpl; lia.
Qed.

Lemma size_fold_delete (ks : list string) m :
  (size (fold_left (fun c key => delete key c) ks m) <= size m)%nat.
Proof.
  revert m. induction ks as [|k ks IH]; intros m; simpl; [done|].
  etransitivity; [apply IH | apply size_delete_le].
Qed.

Lemma NoDup_keys_fold_delete (ks : list string) m :
  NoDup (keys m) ->
  NoDup (keys (fold_left (fun c key => delete key c) ks m)).
Proof.
  revert m. induction ks as [|k ks IH]; intros m Hnd; simpl; [done|].
  by apply IH, NoDup_keys_delete.
Qed.

(** Deleting the first [n] keys, one after the other, drops the first [n]
    entries. *)
Lemma fold_delete_firstn (n : nat) m :
  fold_left (fun c key => delete key c) (firstn n (keys m)) m = drop n m.
Proof.
  revert n. induction m as [|[k a] m IH]; intros [|n]; simpl; try done.
  rewrite String.eqb_refl. apply IH.
Qed.

End MapFacts.

Section Facts.
Variable md5 : string -> string.
Context {V : Type}.
Implicit Types (svc : CacheService V) (i j : KeyInput) (t : Tier).

(** *** Audio hashes *)

Lemma combined_long (head middle tail : string) :
  String.length head = 1024%nat -> String.length tail = 1024%nat ->
  combined (head ++ middle ++ tail) = (head ++ tail)%string.
Proof.
  intros Hh Ht. unfold combined, Buffer.slice, Buffer.concat, Buffer.index,
    Buffer.length. simpl fold_right. rewrite append_nil_r.
  rewrite !length_append, Hh, Ht.
  destruct (Z.ltb_spec 0 0) as [|_]; [lia|].
  destruct (Z.ltb_spec (-1024) 0) as [_|]; [|lia].
  destruct (Z.ltb_spec 1024 0) as [|_]; [lia|].
  destruct (Z.ltb_spec (Z.of_nat (1024 + (String.length middle + 1024))) 0)
    as [|_]; [lia|].
  f_equal.
  - replace (Z.to_nat (Z.min 0 _)) with 0%nat by lia.
    replace (Z.to_nat (Z.min 1024 _ - 0)) with (String.length head) by lia.
    apply substring_prefix.
  - rewrite <- append_assoc.
    replace (Z.to_nat (Z.max _ 0)) with (String.length (head ++ middle))
      by (rewrite length_append; lia).
    rewrite substring_skip. apply substring_all. lia.
Qed.

Lemma combined_short (buf : string) :
  (String.length buf <= 1024)%nat -> combined buf = (buf ++ buf)%string.
Proof.
  intros Hlen. unfold combined, Buffer.slice, Buffer.concat, Buffer.index,
    Buffer.length. simpl fold_right. rewrite append_nil_r.
  destruct (Z.ltb_spec 0 0) as [|_]; [lia|].
  destruct (Z.ltb_spec (-1024) 0) as [_|]; [|lia].
  destruct (Z.ltb_spec 1024 0) as [|_]; [lia|].
  destruct (Z.ltb_spec (Z.of_nat (String.length buf)) 0) as [|_]; [lia|].
  replace (Z.to_nat (Z.min 0 _)) with 0%nat by lia.
  replace (Z.to_nat (Z.max _ 0)) with 0%nat by lia.
  by rewrite !substring_all by lia.
Qed.

(** X1.  Two recordings with the same first 1024 and the same last 1024
    bytes have the same audio hash, whatever lies between and however
    long it is; so the transcript cached for one of them is served for the
    other until it expires. *)
Theorem getAudioHash_head_tail (head middle1 middle2 tail : string) :
  String.length head = 1024%nat -> String.length tail = 1024%nat ->
  getAudioHash md5 (head ++ middle1 ++ tail)
  = getAudioHash md5 (head ++ middle2 ++ tail)
  /\ forall (transcript : V) now now' svc,
       now' < now + transcriptTTL config ->
       fst (getTranscript md5 (getAudioHash md5 (head ++ middle2 ++ tail))
              now'
              (setTranscript md5 (getAudioHash md5 (head ++ middle1 ++ tail))
                 transcript now svc))
       = Some transcript.
Proof.
  intros Hh Ht.
  assert (Heq : getAudioHash md5 (head ++ middle1 ++ tail)
                = getAudioHash md5 (head ++ middle2 ++ tail)).
  { unfold getAudioHash. by rewrite !combined_long. }
  split; [done|]. intros transcript now now' svc Hnow'. rewrite <- Heq.
  set (h := getAudioHash md5 (head ++ middle1 ++ tail)).
  change (getTranscript md5 h now' (setTranscript md5 h transcript now svc))
    with (cacheGet md5 (ForTranscript h) now'
            (cacheSet md5 (ForTranscript h) transcript now svc)).
  rewrite fst_cacheGet, tierCache_cacheSet_same, get_store.
  cbn [live expires data].
  by rewrite (proj2 (Z.ltb_lt _ _)) by exact Hnow'.
Qed.

(** X2.  The bytes that are hashed are never more than 2048, twice the
    smaller of 1024 and the length of the audio; for an audio of at most
    1024 bytes they are the audio itself, twice (nothing, for the empty
    buffer). *)
Theorem getAudioHash_bounded (audioBuffer : string) :
  String.length (combined audioBuffer)
  = (2 * Nat.min (String.length audioBuffer) 1024)%nat
  /\ ((String.length audioBuffer <= 1024)%nat ->
      getAudioHash md5 audioBuffer = md5 (audioBuffer ++ audioBuffer)).
Proof.
  split.
  - unfold combined, Buffer.slice, Buffer.concat, Buffer.index, Buffer.length.
    simpl fold_right. rewrite append_nil_r, length_append, !length_substring.
    destruct (Z.ltb_spec 0 0) as [|_]; [lia|].
    destruct (Z.ltb_spec (-1024) 0) as [_|]; [|lia].
    destruct (Z.ltb_spec 1024 0) as [|_]; [lia|].
    destruct (Z.ltb_spec (Z.of_nat (String.length audioBuffer)) 0) as [|_];
      lia.
  - intros Hlen. unfold getAudioHash. by rewrite combined_short.
Qed.

(** *** The expiry sweep *)

Lemma tierCache_clearExpired now svc t :
  tierCache t (clearExpired now svc)
  = List.filter (fun kv => negb (expired now (snd kv))) (tierCache t svc).
Proof.
  unfold clearExpired, sweep. simpl.
  destruct (0 <? _)%nat; by destruct t.
Qed.

(** X3.  The sweep removes the expired entries and nothing else, and no
    getter can tell that it ran: a get at the time of the sweep or later
    returns what it would have returned without the sweep. *)
Theorem clearExpired_invisible now svc :
  wellFormed svc ->
  (forall t key e,
     get key (tierCache t (clearExpired now svc)) = Some e ->
     now < expires e /\ get key (tierCache t svc) = Some e)
  /\ (forall t key e,
        get key (tierCache t svc) = Some e -> now < expires e ->
        get key (tierCache t (clearExpired now svc)) = Some e)
  /\ (forall i now', now <= now' ->
        fst (cacheGet md5 i now' (clearExpired now svc))
        = fst (cacheGet md5 i now' svc)).
Proof.
  intros Hwf.
  assert (Hget : forall t key,
    get key (tierCache t (clearExpired now svc))
    = match get key (tierCache t svc) with
      | Some e => if now <? expires e then Some e else None
      | None => None
      end).
  { intros t key. rewrite tierCache_clearExpired, get_filter by apply Hwf.
    destruct (get key (tierCache t svc)) as [e|]; [|done].
    unfold expired. simpl.
    destruct (Z.leb_spec (expires e) now), (Z.ltb_spec now (expires e));
      try done; lia. }
  split_and!.
  - intros t key e. rewrite Hget.
    destruct (get key (tierCache t svc)) as [e0|]; [|done].
    destruct (Z.ltb_spec now (expires e0)); [|done].
    by intros [= <-].
  - intros t key e He Hlive. rewrite Hget, He.
    by destruct (Z.ltb_spec now (expires e)); [|lia].
  - intros i now' Hle. rewrite !fst_cacheGet, Hget.
    destruct (get (keyOf md5 i) (tierCache (tierOf i) svc)) as [e|]; [|done].
    destruct (Z.ltb_spec now (expires e)); [done|]. simpl.
    by destruct (Z.ltb_spec now' (expires e)); [lia|].
Qed.

(** *** What a set leaves alone *)

(** X4.  The three tiers are separate maps: a set on one tier changes
    neither the entries of another tier nor the answer of any getter of
    another tier, even for the same audio hash. *)
Theorem set_other_tier i j (value : V) now now' svc :
  tierOf i <> tierOf j ->
  tierCache (tierOf j) (cacheSet md5 i value now svc)
  = tierCache (tierOf j) svc
  /\ fst (cacheGet md5 j now' (cacheSet md5 i value now svc))
     = fst (cacheGet md5 j now' svc).
Proof.
  intros Hne.
  assert (H : tierCache (tierOf j) (cacheSet md5 i value now svc)
              = tierCache (tierOf j) svc)
    by (apply tierCache_cacheSet_other; congruence).
  split; [done|]. by rewrite !fst_cacheGet, H.
Qed.

(** X5.  Within its tier, a set touches at most one other entry, the
    oldest: an entry under another key is unchanged when the tier is below
    capacity or the entry is not the first one, and it is removed when
    the tier is at capacity and the entry is the first one. *)
Theorem set_other_key i (value : V) now svc key :
  wellFormed svc ->
  key <> keyOf md5 i ->
  let tier := tierCache (tierOf i) svc in
  let tier' := tierCache (tierOf i) (cacheSet md5 i value now svc) in
  ((size tier < maxSize (tierOf i))%nat -> get key tier' = get key tier)
  /\ (first_key tier <> Some key -> get key tier' = get key tier)
  /\ ((maxSize (tierOf i) <= size tier)%nat -> first_key tier = Some key ->
      get key tier' = None).
Proof.
  intros Hwf Hne tier tier'.
  assert (Htier' : tier' = store (maxSize (tierOf i)) (TTL (tierOf i))
                             (keyOf md5 i) value now tier)
    by apply tierCache_cacheSet_same.
  assert (Hnd : NoDup (keys tier)) by apply Hwf.
  rewrite Htier'. unfold store. split_and!.
  - intros Hlt. rewrite get_set_ne by congruence.
    unfold evictIfFull. by destruct (Nat.leb_spec (maxSize (tierOf i)) (size tier));
      [lia|].
  - intros Hfirst. rewrite get_set_ne by congruence.
    unfold evictIfFull. destruct (maxSize (tierOf i) <=? size tier)%nat; [|done].
    destruct tier as [|[k0 e0] rest]; [done|].
    rewrite delete_first_cons. simpl in *.
    destruct (String.eqb_spec key k0) as [->|_]; [by destruct Hfirst|done].
  - intros Hfull Hfirst. rewrite get_set_ne by congruence.
    unfold evictIfFull.
    destruct (Nat.leb_spec (maxSize (tierOf i)) (size tier)); [|lia].
    destruct tier as [|[k0 e0] rest]; [done|].
    rewrite delete_first_cons. simpl in Hfirst. injection Hfirst as ->.
    apply NoDup_cons in Hnd as [Hnotin _]. by apply get_None_keys.
Qed.

(** *** Eviction order, with hits in between *)

Lemma Forall_storedIn t (calls : list (@Call V)) :
  Forall (fun e => tierOf (fst (fst e)) = t) (storedIn t calls).
Proof.
  induction calls as [|c calls IH]; simpl; [constructor|].
  apply Forall_app. split; [|done].
  destruct c as [i value now| | |]; try constructor.
  destruct (decide (tierOf i = t)); repeat constructor; done.
Qed.

Lemma run_storedIn t (calls : list (@Call V)) svc :
  forallb isGetOrSet calls = true ->
  tierCache t (run md5 svc calls)
  = fold_left (storeEntry md5 t) (storedIn t calls) (tierCache t svc).
Proof.
  revert svc. induction calls as [|c calls IH]; intros svc Hcalls; [done|].
  simpl in Hcalls. apply andb_prop in Hcalls as [Hc Hcalls].
  change (run md5 svc (c :: calls)) with (run md5 (step md5 svc c) calls).
  rewrite IH by done. cbn [storedIn flat_map]. rewrite fold_left_app.
  f_equal. destruct c as [i value now|i now| |]; try done; simpl.
  - destruct (decide (tierOf i = t)) as [<-|Hne]; simpl.
    + apply tierCache_cacheSet_same.
    + apply tierCache_cacheSet_other. congruence.
  - apply tierCache_cacheGet.
Qed.

(** X6.  Hits do not protect an entry.  After any sequence of gets and
    sets in which the keys stored in a tier are distinct, the tier holds
    the last [maxSize] values stored in it, in the order of their
    insertion, whatever gets were made in between. *)
Theorem eviction_ignores_gets t (calls : list (@Call V)) svc0 :
  forallb isGetOrSet calls = true ->
  tierCache t svc0 = JsMap.empty ->
  NoDup (map (fun e => keyOf md5 (fst (fst e))) (storedIn t calls)) ->
  tierCache t (run md5 svc0 calls)
  = map (entryOf md5)
      (drop (length (storedIn t calls) - maxSize t) (storedIn t calls)).
Proof.
  intros Hcalls Hempty Hnd.
  rewrite run_storedIn, Hempty by done.
  apply fifo_resident; [apply Forall_storedIn | done].
Qed.

(** *** Pruning *)

Lemma quarter (n : Z) :
  0 <= n < 2 ^ 53 ->
  Double.floor (Double.mul (Double.ofInt n) Double.d0_25) = n / 4.
Proof.
  intros Hn. unfold Double.mul, Double.round, Double.ofInt, Double.d0_25.
  cbn [Double.mant Double.expo]. rewrite Z.mul_1_r.
  destruct (Z.ltb_spec n (2 ^ 53)); [|lia].
  unfold Double.floor. cbn [Double.mant Double.expo].
  change (0 + -2 <? 0) with true. cbv iota.
  change (- (0 + -2)) with 2. by rewrite Z.shiftr_div_pow2.
Qed.

(** [n >= maxSize * 0.9] on the three capacities: the products are the
    doubles 90, 45 and 27. *)
Lemma ninety_percent t (n : Z) :
  Double.geInt n (Double.mul (Double.ofInt (Z.of_nat (maxSize t))) Double.d0_9)
  = (9 * Z.of_nat (maxSize t) <=? 10 * n).
Proof.
  destruct t.
  - replace (Double.mul _ _) with (Double.mk 6333186975989760 (-46))
      by (by vm_compute).
    unfold Double.geInt. cbn [Double.mant Double.expo].
    change (-46 <? 0) with true. cbv iota.
    change (2 ^ (- -46)) with 70368744177664.
    change (Z.of_nat (maxSize Response)) with 100.
    destruct (Z.leb_spec 6333186975989760 (n * 70368744177664)),
      (Z.leb_spec (9 * 100) (10 * n)); try done; lia.
  - replace (Double.mul _ _) with (Double.mk 6333186975989760 (-47))
      by (by vm_compute).
    unfold Double.geInt. cbn [Double.mant Double.expo].
    change (-47 <? 0) with true. cbv iota.
    change (2 ^ (- -47)) with 140737488355328.
    change (Z.of_nat (maxSize Language)) with 50.
    destruct (Z.leb_spec 6333186975989760 (n * 140737488355328)),
      (Z.leb_spec (9 * 50) (10 * n)); try done; lia.
  - replace (Double.mul _ _) with (Double.mk 7599824371187712 (-48))
      by (by vm_compute).
    unfold Double.geInt. cbn [Double.mant Double.expo].
    change (-48 <? 0) with true. cbv iota.
    change (2 ^ (- -48)) with 281474976710656.
    change (Z.of_nat (maxSize Transcript)) with 30.
    destruct (Z.leb_spec 7599824371187712 (n * 281474976710656)),
      (Z.leb_spec (9 * 30) (10 * n)); try done; lia.
Qed.

Lemma pruneCache_spec t (cache : JsMap.t (Entry V)) :
  (size cache <= maxSize t)%nat ->
  pruneCache cache (maxSize t)
  = if (9 * maxSize t <=? 10 * size cache)%nat
    then (drop (size cache / 4) cache, (size cache / 4)%nat)
    else (cache, 0%nat).
Proof.
  intros Hsize. unfold pruneCache. rewrite ninety_percent.
  assert (Hmax : (maxSize t <= 100)%nat) by (destruct t; simpl; lia).
  destruct (Z.leb_spec (9 * Z.of_nat (maxSize t)) (10 * Z.of_nat (size cache))),
    (Nat.leb_spec (9 * maxSize t) (10 * size cache)); try lia; [|done].
  rewrite quarter by lia.
  replace (Z.to_nat (Z.of_nat (size cache) / 4)) with (size cache / 4)%nat
    by (rewrite <- (Nat2Z.id (size cache / 4)), Nat2Z.inj_div; done).
  by rewrite fold_delete_firstn.
Qed.

Lemma tierCache_prune svc t :
  tierCache t (fst (prune svc))
  = fst (pruneCache (tierCache t svc) (maxSize t)).
Proof.
  unfold prune. destruct t; cbn [tierCache maxSize];
    destruct (pruneCache (responseCache svc) _) as [r n1];
    destruct (pruneCache (languageCache svc) _) as [l n2];
    destruct (pruneCache (transcriptCache svc) _) as [x n3]; done.
Qed.

(** X7.  [prune] leaves a tier alone while it holds less than 90% of its
    capacity (fewer than 90, 45 and 27 entries); from there on it removes
    the oldest quarter of the entries, rounded down, whether expired or
    not, and keeps the others in order, so that a tier that is not empty
    is never emptied. *)
Theorem prune_spec svc t :
  withinCapacity svc ->
  let tier := tierCache t svc in
  let tier' := tierCache t (fst (prune svc)) in
  ((10 * size tier < 9 * maxSize t)%nat -> tier' = tier)
  /\ ((9 * maxSize t <= 10 * size tier)%nat ->
      tier' = drop (size tier / 4) tier
      /\ size tier' = (size tier - size tier / 4)%nat
      /\ (1 <= size tier')%nat).
Proof.
  intros Hcap tier tier'.
  assert (Htier' : tier' = fst (pruneCache tier (maxSize t)))
    by apply tierCache_prune.
  rewrite Htier', pruneCache_spec by apply Hcap.
  pose proof (maxSize_pos t) as Hpos. split.
  - intros Hlt.
    by destruct (Nat.leb_spec (9 * maxSize t) (10 * size tier)); [lia|].
  - intros Hge.
    destruct (Nat.leb_spec (9 * maxSize t) (10 * size tier)); [|lia].
    cbn [fst].
    assert (Hs : size (drop (size tier / 4) tier)
                 = (size tier - size tier / 4)%nat)
      by (unfold size; apply length_drop).
    rewrite Hs. split_and!; [done|done|].
    assert (size tier / 4 < size tier)%nat; [|lia].
    apply Nat.div_lt; lia.
Qed.

(** *** Invariants, with pruning *)

Lemma withinCapacity_prune svc :
  withinCapacity svc -> withinCapacity (fst (prune svc)).
Proof.
  intros Hcap t. rewrite tierCache_prune. unfold pruneCache.
  destruct (Double.geInt _ _); simpl; [|apply Hcap].
  etransitivity; [apply size_fold_delete | apply Hcap].
Qed.

Lemma wellFormed_prune svc :
  wellFormed svc -> wellFormed (fst (prune svc)).
Proof.
  intros Hwf t. rewrite tierCache_prune. unfold pruneCache.
  destruct (Double.geInt _ _); simpl; [|apply Hwf].
  apply NoDup_keys_fold_delete, Hwf.
Qed.

(** X8.  In every state that the service reaches from a new one, by sets,
    gets, expiry sweeps, clearing and pruning in any order, no key has two
    entries in a tier, and [getStats] reports for each tier a size within
    its [maxSize], the capacities 100, 50 and 30, and a total that is the
    sum of the three sizes, at most 180. *)
Theorem getStats_bounds (ops : list (@Op V)) :
  let svc := runOps md5 constructor ops in
  let stats := getStats svc in
  wellFormed svc
  /\ (TierStats.size (Stats.responseCache stats)
      <= TierStats.maxSize (Stats.responseCache stats))%nat
  /\ (TierStats.size (Stats.languageCache stats)
      <= TierStats.maxSize (Stats.languageCache stats))%nat
  /\ (TierStats.size (Stats.transcriptCache stats)
      <= TierStats.maxSize (Stats.transcriptCache stats))%nat
  /\ (TierStats.maxSize (Stats.responseCache stats),
      TierStats.maxSize (Stats.languageCache stats),
      TierStats.maxSize (Stats.transcriptCache stats))
     = (100, 50, 30)%nat
  /\ Stats.totalSize stats
     = (TierStats.size (Stats.responseCache stats)
        + TierStats.size (Stats.languageCache stats)
        + TierStats.size (Stats.transcriptCache stats))%nat
  /\ (Stats.totalSize stats <= 180)%nat.
Proof.
  intros svc stats.
  assert (Hinv : withinCapacity svc /\ wellFormed svc).
  { subst svc. generalize (@withinCapacity_constructor V).
    generalize (@wellFormed_constructor V).
    generalize (@constructor V).
    induction ops as [|op ops IH]; intros s Hwf Hcap; [done|].
    simpl. apply IH; destruct op as [c|]; simpl;
      auto using wellFormed_step, withinCapacity_step, wellFormed_prune,
        withinCapacity_prune. }
  destruct Hinv as [Hcap Hwf].
  pose proof (Hcap Response) as H1. pose proof (Hcap Language) as H2.
  pose proof (Hcap Transcript) as H3. simpl in H1, H2, H3.
  subst stats. unfold getStats. simpl. split_and!; try done; lia.
Qed.

End Facts.

(** *** The properties on concrete services *)

Lemma getAudioHash_head_tail_witness :
  (String.length (Examples.kilobyte "a") = 1024%nat
   /\ String.length (Examples.kilobyte "b") = 1024%nat)
  /\ getAudioHash MD5.md5_hex
       (Examples.kilobyte "a" ++ "x" ++ Examples.kilobyte "b")%string
     = getAudioHash MD5.md5_hex
         (Examples.kilobyte "a" ++ "yy" ++ Examples.kilobyte "b")%string.
Proof.
  assert (Ha : String.length (Examples.kilobyte "a") = 1024%nat)
    by (vm_compute; reflexivity).
  assert (Hb : String.length (Examples.kilobyte "b") = 1024%nat)
    by (vm_compute; reflexivity).
  exact (conj (conj Ha Hb)
           (proj1 (getAudioHash_head_tail MD5.md5_hex (V := nat)
                     (Examples.kilobyte "a") "x" "yy"
                     (Examples.kilobyte "b") Ha Hb))).
Defined.

Lemma wellFormed_fullResponses : wellFormed Examples.fullResponses.
Proof. apply wellFormed_run, wellFormed_constructor. Qed.

Lemma withinCapacity_fullResponses : withinCapacity Examples.fullResponses.
Proof. intros t. destruct t; vm_compute; lia. Qed.

Lemma clearExpired_invisible_witness :
  wellFormed Examples.fullResponses
  /\ (forall i now', 150 <= now' ->
        fst (cacheGet MD5.md5_hex i now'
               (clearExpired 150 Examples.fullResponses))
        = fst (cacheGet MD5.md5_hex i now' Examples.fullResponses)).
Proof.
  assert (Hwf : wellFormed Examples.fullResponses)
    by exact wellFormed_fullResponses.
  exact (conj Hwf
           (proj2 (proj2 (clearExpired_invisible MD5.md5_hex 150
                            Examples.fullResponses Hwf)))).
Defined.

Lemma set_other_tier_witness :
  tierOf (ForLanguage "abc") <> tierOf (ForTranscript "abc")
  /\ tierCache (tierOf (ForTranscript "abc"))
       (cacheSet MD5.md5_hex (ForLanguage "abc") 1%nat 10
          Examples.fullResponses)
     = tierCache (tierOf (ForTranscript "abc")) Examples.fullResponses.
Proof.
  assert (Hne : tierOf (ForLanguage "abc") <> tierOf (ForTranscript "abc"))
    by (simpl; discriminate).
  exact (conj Hne
           (proj1 (set_other_tier MD5.md5_hex (ForLanguage "abc")
                     (ForTranscript "abc") 1%nat 10 20
                     Examples.fullResponses Hne))).
Defined.

Lemma set_other_key_witness :
  (wellFormed Examples.fullResponses
   /\ keyOf MD5.md5_hex (ForResponse "q1" "sess1")
      <> keyOf MD5.md5_hex (ForResponse "new" "sess1"))
  /\ ((maxSize (tierOf (ForResponse "new" "sess1"))
       <= size (tierCache (tierOf (ForResponse "new" "sess1"))
                  Examples.fullResponses))%nat ->
      first_key (tierCache (tierOf (ForResponse "new" "sess1"))
                   Examples.fullResponses)
      = Some (keyOf MD5.md5_hex (ForResponse "q1" "sess1")) ->
      get (keyOf MD5.md5_hex (ForResponse "q1" "sess1"))
        (tierCache (tierOf (ForResponse "new" "sess1"))
           (cacheSet MD5.md5_hex (ForResponse "new" "sess1") 0%nat 200
              Examples.fullResponses))
      = None).
Proof.
  assert (Hwf : wellFormed Examples.fullResponses)
    by exact wellFormed_fullResponses.
  assert (Hne : keyOf MD5.md5_hex (ForResponse "q1" "sess1")
                <> keyOf MD5.md5_hex (ForResponse "new" "sess1"))
    by (vm_compute; discriminate).
  exact (conj (conj Hwf Hne)
           (proj2 (proj2 (set_other_key MD5.md5_hex
                            (ForResponse "new" "sess1") 0%nat 200
                            Examples.fullResponses
                            (keyOf MD5.md5_hex (ForResponse "q1" "sess1"))
                            Hwf Hne)))).
Defined.

Lemma eviction_ignores_gets_witness :
  (forallb isGetOrSet Examples.askedAgain = true
   /\ tierCache Response (@constructor nat) = JsMap.empty
   /\ NoDup (map (fun e => keyOf MD5.md5_hex (fst (fst e)))
               (storedIn Response Examples.askedAgain)))
  /\ tierCache Response (run MD5.md5_hex constructor Examples.askedAgain)
     = map (entryOf MD5.md5_hex)
         (drop (length (storedIn Response Examples.askedAgain)
                - maxSize Response)
            (storedIn Response Examples.askedAgain)).
Proof.
  assert (Hcalls : forallb isGetOrSet Examples.askedAgain = true)
    by (vm_compute; reflexivity).
  assert (Hnd : NoDup (map (fun e => keyOf MD5.md5_hex (fst (fst e)))
                         (storedIn Response Examples.askedAgain))).
  { apply (bool_decide_unpack _). by vm_compute. }
  exact (conj (conj Hcalls (conj eq_refl Hnd))
           (eviction_ignores_gets MD5.md5_hex Response Examples.askedAgain
              constructor Hcalls eq_refl Hnd)).
Defined.

Lemma prune_spec_witness :
  withinCapacity Examples.fullResponses
  /\ ((9 * maxSize Response
       <= 10 * size (tierCache Response Examples.fullResponses))%nat ->
      tierCache Response (fst (prune Examples.fullResponses))
      = drop (size (tierCache Response Examples.fullResponses) / 4)
          (tierCache Response Examples.fullResponses)
      /\ size (tierCache Response (fst (prune Examples.fullResponses)))
         = (size (tierCache Response Examples.fullResponses)
            - size (tierCache Response Examples.fullResponses) / 4)%nat
      /\ (1 <= size (tierCache Response
                       (fst (prune Examples.fullResponses))))%nat).
Proof.
  assert (Hcap : withinCapacity Examples.fullResponses)
    by exact withinCapacity_fullResponses.
  exact (conj Hcap
           (proj2 (prune_spec Examples.fullResponses Response Hcap))).
Defined.

End CacheMoreFacts.

(** ** The speech-config pool *)
Module PoolFacts.
Import Pool.

Section Facts.
Variable sdkThrows : nat -> bool.
Implicit Types (st : SpeechService) (r : Ref) (item : PoolItem).

Ltac unfold_pool :=
  unfold getConfigFromPool, returnConfigToPool, refreshIfStale, bind, read,
    write, modify, alloc, close, log, countCreated, countReused,
    countDestroyed, fromSubscription, ret, withObjects, withPoolStats,
    withConfigPool in *.

(** *** The order [extends] *)

Lemma extends_refl st : extends st st.
Proof.
  unfold extends. split_and!; [done|done|done| |].
  - intros r item H. by exists item.
  - intros r item' H Hr. apply lookup_lt_Some in H. lia.
Qed.

Lemma extends_trans st1 st2 st3 :
  extends st1 st2 -> extends st2 st3 -> extends st1 st3.
Proof.
  intros (Hp1 & Hs1 & Hl1 & Hold1 & Hnew1) (Hp2 & Hs2 & Hl2 & Hold2 & Hnew2).
  unfold extends. split_and!; [congruence|congruence|lia| |].
  - intros r item H. destruct (Hold1 _ _ H) as (item' & H' & Ht').
    destruct (Hold2 _ _ H') as (item'' & H'' & Ht''). exists item''.
    split; [done|congruence].
  - intros r item'' H'' Hr.
    destruct (decide (r < length (objects st2))%nat) as [Hlt|Hge].
    + destruct (lookup_lt_is_Some_2 _ _ Hlt) as [item' H'].
      destruct (Hold2 _ _ H') as (item3 & H3 & Ht3).
      rewrite H'' in H3. injection H3 as <-. rewrite Ht3.
      by apply (Hnew1 r).
    + apply (Hnew2 r); [done|lia].
Qed.

(** Overwriting an item without changing its [temporary] property. *)
Lemma extends_write st r item item' ps calls closed out :
  objects st !! r = Some item -> temporary item' = temporary item ->
  extends st
    (mkService (<[r := item']> (objects st)) (configPool st) (poolSize st)
       ps calls closed out).
Proof.
  intros Hr Ht. unfold extends. simpl. rewrite length_insert.
  split_and!; [done|done|done| |].
  - intros r0 item0 H0. destruct (decide (r0 = r)) as [->|Hne].
    + exists item'. rewrite list_lookup_insert_eq
        by by apply lookup_lt_Some in Hr.
      split; [done|congruence].
    + exists item0. by rewrite list_lookup_insert_ne.
  - intros r0 item0 H0 Hge. apply lookup_lt_Some in H0.
    rewrite length_insert in H0. lia.
Qed.

(** Leaving the items as they are. *)
Lemma extends_same st ps calls closed out :
  extends st
    (mkService (objects st) (configPool st) (poolSize st) ps calls closed out).
Proof. apply (extends_refl st). Qed.

(** Adding a temporary item. *)
Lemma extends_alloc st item ps calls closed out :
  temporary item = true ->
  extends st
    (mkService (objects st ++ [item]) (configPool st) (poolSize st)
       ps calls closed out).
Proof.
  intros Ht. unfold extends. simpl. rewrite length_app. simpl.
  split_and!; [done|done|lia| |].
  - intros r item0 H0. exists item0.
    by rewrite lookup_app_l by by apply lookup_lt_Some in H0.
  - intros r item' H Hge.
    rewrite lookup_app_r in H by done.
    destruct (r - length (objects st))%nat; simpl in H; [|done].
    by injection H as <-.
Qed.

Lemma poolWf_extends st st' : poolWf st -> extends st st' -> poolWf st'.
Proof.
  intros (Hnd & Hpool & Hrest) (Hp & _ & Hlen & Hold & Hnew).
  unfold poolWf. rewrite Hp. split_and!; [done| |].
  - intros r Hr. destruct (Hpool r Hr) as (item & H & Ht).
    destruct (Hold _ _ H) as (item' & H' & Ht'). exists item'.
    split; [done|congruence].
  - intros r item' H' Ht'.
    destruct (decide (r < length (objects st))%nat) as [Hlt|Hge].
    + destruct (lookup_lt_is_Some_2 _ _ Hlt) as [item H].
      destruct (Hold _ _ H) as (item2 & H2 & Ht2).
      rewrite H' in H2. injection H2 as <-. apply (Hrest r item); congruence.
    + rewrite (Hnew r item' H') in Ht' by lia. done.
Qed.

(** *** What each operation does, case by case *)

Lemma find_isAvailable st r :
  List.find (isAvailable st) (configPool st) = Some r ->
  r ∈ configPool st
  /\ exists item, objects st !! r = Some item /\ inUse item = false.
Proof.
  intros [Hin Hav]%List.find_some. split; [by apply list_elem_of_In|].
  unfold isAvailable in Hav. destruct (objects st !! r) as [item|]; [|done].
  exists item. split; [done|]. by destruct (inUse item).
Qed.

Lemma getConfigFromPool_reuse now st r item :
  List.find (isAvailable st) (configPool st) = Some r ->
  objects st !! r = Some item ->
  getConfigFromPool sdkThrows now st
  = (Returned r,
     mkService
       (<[r := mkItem (config item) true (temporary item) (created item) now]>
          (objects st))
       (configPool st) (poolSize st)
       (Stats.mk (Stats.created (poolStats st))
          (S (Stats.reused (poolStats st)))
          (Stats.destroyed (poolStats st)))
       (sdkCalls st) (closedConfigs st) (console st)).
Proof.
  intros Hfind Hr. unfold getConfigFromPool. rewrite Hfind.
  unfold_pool. by rewrite Hr.
Qed.

Lemma getConfigFromPool_temporary now st :
  List.find (isAvailable st) (configPool st) = None ->
  sdkThrows (sdkCalls st) = false ->
  getConfigFromPool sdkThrows now st
  = (Returned (length (objects st)),
     mkService (objects st ++ [mkItem (sdkCalls st) true true now now])
       (configPool st) (poolSize st)
       (Stats.mk (S (Stats.created (poolStats st)))
          (Stats.reused (poolStats st)) (Stats.destroyed (poolStats st)))
       (S (sdkCalls st)) (closedConfigs st) (console st ++ [LogAllInUse])).
Proof.
  intros Hfind Hsdk. unfold getConfigFromPool. rewrite Hfind.
  unfold_pool. simpl. by rewrite Hsdk.
Qed.

Lemma getConfigFromPool_throws now st :
  List.find (isAvailable st) (configPool st) = None ->
  sdkThrows (sdkCalls st) = true ->
  getConfigFromPool sdkThrows now st
  = (Thrown SdkError,
     mkService (objects st) (configPool st) (poolSize st) (poolStats st)
       (S (sdkCalls st)) (closedConfigs st) (console st ++ [LogAllInUse])).
Proof.
  intros Hfind Hsdk. unfold getConfigFromPool. rewrite Hfind.
  unfold_pool. simpl. by rewrite Hsdk.
Qed.

Lemma returnConfigToPool_temporary r now st item :
  objects st !! r = Some item -> temporary item = true ->
  returnConfigToPool r now st
  = (Returned tt,
     mkService (objects st) (configPool st) (poolSize st)
       (Stats.mk (Stats.created (poolStats st)) (Stats.reused (poolStats st))
          (S (Stats.destroyed (poolStats st))))
       (sdkCalls st) (config item :: closedConfigs st) (console st)).
Proof. intros Hr Ht. unfold_pool. by rewrite Hr, Ht. Qed.

Lemma returnConfigToPool_pooled r now st item :
  objects st !! r = Some item -> temporary item = false ->
  returnConfigToPool r now st
  = (Returned tt,
     mkService
       (<[r := mkItem (config item) false false (created item) now]>
          (objects st))
       (configPool st) (poolSize st) (poolStats st) (sdkCalls st)
       (closedConfigs st) (console st)).
Proof. intros Hr Ht. unfold_pool. by rewrite Hr, Ht. Qed.

Lemma returnConfigToPool_undefined r now st :
  objects st !! r = None ->
  returnConfigToPool r now st = (Thrown TypeError, st).
Proof. intros Hr. unfold_pool. by rewrite Hr. Qed.

Lemma refreshIfStale_fresh now r st item :
  objects st !! r = Some item -> isStale now item = false ->
  refreshIfStale sdkThrows now r st = (Returned tt, st).
Proof. intros Hr Hs. unfold_pool. by rewrite Hr, Hs. Qed.

Lemma refreshIfStale_stale now r st item :
  objects st !! r = Some item -> isStale now item = true ->
  sdkThrows (sdkCalls st) = false ->
  refreshIfStale sdkThrows now r st
  = (Returned tt,
     mkService
       (<[r := mkItem (sdkCalls st) (inUse item) (temporary item) now now]>
          (objects st))
       (configPool st) (poolSize st) (poolStats st) (S (sdkCalls st))
       (config item :: closedConfigs st) (console st ++ [LogRefreshed])).
Proof. intros Hr Hs Hsdk. unfold_pool. simpl. by rewrite Hr, Hs, Hsdk. Qed.

Lemma refreshIfStale_throws now r st item :
  objects st !! r = Some item -> isStale now item = true ->
  sdkThrows (sdkCalls st) = true ->
  refreshIfStale sdkThrows now r st
  = (Thrown SdkError,
     mkService (objects st) (configPool st) (poolSize st) (poolStats st)
       (S (sdkCalls st)) (config item :: closedConfigs st) (console st)).
Proof. intros Hr Hs Hsdk. unfold_pool. simpl. by rewrite Hr, Hs, Hsdk. Qed.

Lemma refreshIfStale_undefined now r st :
  objects st !! r = None ->
  refreshIfStale sdkThrows now r st = (Thrown TypeError, st).
Proof. intros Hr. unfold_pool. by rewrite Hr. Qed.

(** *** Every operation leaves a later state *)

Lemma getConfigFromPool_extends now st :
  extends st (snd (getConfigFromPool sdkThrows now st)).
Proof.
  destruct (List.find (isAvailable st) (configPool st)) as [r|] eqn:Hfind.
  - destruct (find_isAvailable _ _ Hfind) as (_ & item & Hr & _).
    rewrite (getConfigFromPool_reuse _ _ _ _ Hfind Hr). simpl.
    by eapply extends_write.
  - destruct (sdkThrows (sdkCalls st)) eqn:Hsdk.
    + rewrite getConfigFromPool_throws by done. apply extends_same.
    + rewrite getConfigFromPool_temporary by done. by apply extends_alloc.
Qed.

Lemma returnConfigToPool_extends r now st :
  extends st (snd (returnConfigToPool r now st)).
Proof.
  destruct (objects st !! r) as [item|] eqn:Hr.
  - destruct (temporary item) eqn:Ht.
    + rewrite (returnConfigToPool_temporary _ _ _ _ Hr Ht). apply extends_same.
    + rewrite (returnConfigToPool_pooled _ _ _ _ Hr Ht). simpl.
      by eapply extends_write.
  - rewrite returnConfigToPool_undefined by done. apply extends_refl.
Qed.

Lemma refreshIfStale_extends now r st :
  extends st (snd (refreshIfStale sdkThrows now r st)).
Proof.
  destruct (objects st !! r) as [item|] eqn:Hr.
  - destruct (isStale now item) eqn:Hs.
    + destruct (sdkThrows (sdkCalls st)) eqn:Hsdk.
      * rewrite (refreshIfStale_throws _ _ _ _ Hr Hs Hsdk). apply extends_same.
      * rewrite (refreshIfStale_stale _ _ _ _ Hr Hs Hsdk). simpl.
        by eapply extends_write.
    + rewrite (refreshIfStale_fresh _ _ _ _ Hr Hs). apply extends_refl.
  - rewrite refreshIfStale_undefined by done. apply extends_refl.
Qed.

Lemma forEach_extends (f : Ref -> M unit) refs st :
  (forall r st0, extends st0 (snd (f r st0))) ->
  extends st (snd (forEach f refs st)).
Proof.
  intros Hf. revert st. induction refs as [|r refs IH]; intros st; simpl.
  - apply extends_refl.
  - unfold bind. specialize (Hf r st).
    destruct (f r st) as [[[]|e] st1]; simpl in *; [|done].
    eapply extends_trans; [exact Hf | apply IH].
Qed.

Lemma performPoolMaintenance_extends now st :
  extends st (snd (performPoolMaintenance sdkThrows now st)).
Proof. apply forEach_extends. intros r st0. apply refreshIfStale_extends. Qed.

Lemma step_extends st (c : Call) : extends st (step sdkThrows st c).
Proof.
  destruct c; simpl.
  - apply getConfigFromPool_extends.
  - apply returnConfigToPool_extends.
  - apply performPoolMaintenance_extends.
Qed.

Lemma run_extends st (calls : list Call) :
  extends st (run sdkThrows st calls).
Proof.
  revert st. induction calls as [|c calls IH]; intros st; simpl.
  - apply extends_refl.
  - eapply extends_trans; [apply step_extends | apply IH].
Qed.

(** *** Initialization *)

Lemma initializeConfigPool_returns now :
  (forall n, (n < 5)%nat -> sdkThrows n = false) ->
  initializeConfigPool sdkThrows now constructor
  = (Returned tt,
     mkService
       [mkItem 0 false false now now; mkItem 1 false false now now;
        mkItem 2 false false now now; mkItem 3 false false now now;
        mkItem 4 false false now now]
       [0; 1; 2; 3; 4]%nat 5 (Stats.mk 5 0 0) 5 []
       [LogInitializing; LogCreatingPool]).
Proof.
  intros Hsdk. unfold initializeConfigPool, constructor.
  cbv [bind log modify times poolSize ret objects configPool poolStats
       sdkCalls closedConfigs console].
  do 5 (cbv [bind fromSubscription alloc modify countCreated withObjects
             withConfigPool withPoolStats sdkCalls objects configPool
             poolSize poolStats closedConfigs console ret];
        rewrite Hsdk by lia).
  reflexivity.
Qed.

Lemma poolWf_initialized now :
  (forall n, (n < 5)%nat -> sdkThrows n = false) ->
  poolWf (snd (initializeConfigPool sdkThrows now constructor)).
Proof.
  intros Hsdk. rewrite initializeConfigPool_returns by done.
  unfold poolWf. simpl. split_and!.
  - apply (bool_decide_unpack _). by vm_compute.
  - intros r Hr. repeat (apply elem_of_cons in Hr as [->|Hr]; [by eexists|]).
    by apply elem_of_nil in Hr.
  - intros r item Hr _.
    do 5 (destruct r as [|r]; [apply list_elem_of_In; simpl; tauto|]). done.
Qed.

(** C10.  When the five constructor calls of the initialization succeed,
    the pool array holds exactly [poolSize = 5] references, to distinct
    items none of which is temporary; and after any sequence of acquire,
    release and maintenance calls the array is the same array of
    references, still to non-temporary items. *)
Theorem pool_slots_invariant now (calls : list Call) :
  (forall n, (n < 5)%nat -> sdkThrows n = false) ->
  let st0 := snd (initializeConfigPool sdkThrows now constructor) in
  let st := run sdkThrows st0 calls in
  fst (initializeConfigPool sdkThrows now constructor) = Returned tt
  /\ poolSize st0 = 5%nat
  /\ length (configPool st0) = 5%nat
  /\ configPool st = configPool st0
  /\ length (configPool st) = poolSize st
  /\ NoDup (configPool st)
  /\ Forall
       (fun r => exists item,
          objects st !! r = Some item /\ temporary item = false)
       (configPool st).
Proof.
  intros Hsdk st0 st.
  pose proof (run_extends st0 calls) as Hext. fold st in Hext.
  pose proof (poolWf_extends _ _ (poolWf_initialized now Hsdk) Hext)
    as (Hnd & Hpool & _).
  destruct Hext as (Hp & Hs & _).
  assert (H0 : fst (initializeConfigPool sdkThrows now constructor)
               = Returned tt /\ poolSize st0 = 5%nat
               /\ length (configPool st0) = 5%nat).
  { subst st0. by rewrite initializeConfigPool_returns. }
  destruct H0 as (Hret & Hsize & Hlen).
  split_and!; [done|done|done|done|congruence|done|].
  apply Forall_forall. intros r Hr. by apply Hpool.
Qed.

(** *** Acquire *)

Lemma find_None_unavailable st r item :
  poolWf st ->
  List.find (isAvailable st) (configPool st) = None ->
  objects st !! r = Some item -> temporary item = false ->
  inUse item = true.
Proof.
  intros (_ & _ & Hrest) Hfind Hr Ht.
  pose proof (List.find_none _ _ Hfind r) as Hav.
  unfold isAvailable in Hav. rewrite Hr in Hav.
  destruct (inUse item); [done|].
  discriminate Hav. by apply list_elem_of_In, (Hrest r item).
Qed.

(** C4, as the code has it.  An acquire is a total function of the state,
    so it never waits.  If some non-temporary item is not in use, such an
    item is returned, marked in use, with [lastUsed] set to the clock and
    [reused] counted; this involves no call of the SDK and cannot fail.
    Otherwise, when the SDK constructor returns, a new item is returned,
    temporary and in use, with [created] counted, and the pool array is
    not changed.  The only exception an acquire can end with is the one
    thrown by the SDK constructor while the temporary item is built; it
    ends with it exactly when no pooled item is free and the constructor
    throws, and then no item has been made and no counter changed. *)
Theorem getConfigFromPool_spec now st :
  poolWf st ->
  ((exists r item, objects st !! r = Some item
                   /\ temporary item = false /\ inUse item = false) ->
   exists r item,
     objects st !! r = Some item /\ temporary item = false
     /\ inUse item = false
     /\ getConfigFromPool sdkThrows now st
        = (Returned r,
           mkService
             (<[r := mkItem (config item) true false (created item) now]>
                (objects st))
             (configPool st) (poolSize st)
             (Stats.mk (Stats.created (poolStats st))
                (S (Stats.reused (poolStats st)))
                (Stats.destroyed (poolStats st)))
             (sdkCalls st) (closedConfigs st) (console st)))
  /\ (~ (exists r item, objects st !! r = Some item
                        /\ temporary item = false /\ inUse item = false) ->
      sdkThrows (sdkCalls st) = false ->
      objects st !! length (objects st) = None
      /\ getConfigFromPool sdkThrows now st
         = (Returned (length (objects st)),
            mkService (objects st ++ [mkItem (sdkCalls st) true true now now])
              (configPool st) (poolSize st)
              (Stats.mk (S (Stats.created (poolStats st)))
                 (Stats.reused (poolStats st))
                 (Stats.destroyed (poolStats st)))
              (S (sdkCalls st)) (closedConfigs st)
              (console st ++ [LogAllInUse])))
  /\ (forall e st',
        getConfigFromPool sdkThrows now st = (Thrown e, st') ->
        e = SdkError /\ sdkThrows (sdkCalls st) = true
        /\ ~ (exists r item, objects st !! r = Some item
                             /\ temporary item = false /\ inUse item = false))
  /\ (~ (exists r item, objects st !! r = Some item
                        /\ temporary item = false /\ inUse item = false) ->
      sdkThrows (sdkCalls st) = true ->
      getConfigFromPool sdkThrows now st
      = (Thrown SdkError,
         mkService (objects st) (configPool st) (poolSize st) (poolStats st)
           (S (sdkCalls st)) (closedConfigs st)
           (console st ++ [LogAllInUse]))).
Proof.
  intros Hwf.
  destruct (List.find (isAvailable st) (configPool st)) as [r|] eqn:Hfind.
  - destruct (find_isAvailable _ _ Hfind) as (Hin & item & Hr & Hfree).
    assert (Ht : temporary item = false).
    { destruct Hwf as (_ & Hpool & _).
      destruct (Hpool r Hin) as (item' & Hr' & Ht'). congruence. }
    pose proof (getConfigFromPool_reuse now _ _ _ Hfind Hr) as Heq.
    rewrite Ht in Heq. split_and!.
    + intros _. by exists r, item.
    + intros Hnone. destruct Hnone. by exists r, item.
    + intros e st' He. congruence.
    + intros Hnone. destruct Hnone. by exists r, item.
  - assert (Hnone : ~ (exists r item, objects st !! r = Some item
                        /\ temporary item = false /\ inUse item = false)).
    { intros (r & item & Hr & Ht & Hfree).
      pose proof (find_None_unavailable _ _ _ Hwf Hfind Hr Ht). congruence. }
    split_and!.
    + intros Hsome. by destruct Hnone.
    + intros _ Hsdk. split; [by apply lookup_ge_None_2|].
      by apply getConfigFromPool_temporary.
    + intros e st' He. destruct (sdkThrows (sdkCalls st)) eqn:Hsdk.
      * rewrite getConfigFromPool_throws in He by done.
        by injection He as <- _.
      * rewrite getConfigFromPool_temporary in He by done. discriminate.
    + intros _ Hsdk. by apply getConfigFromPool_throws.
Qed.

(** *** Release *)

Lemma isAvailable_true st r :
  isAvailable st r = true <->
  exists item, objects st !! r = Some item /\ inUse item = false.
Proof.
  unfold isAvailable. destruct (objects st !! r) as [item|].
  - destruct (inUse item) eqn:E; simpl; split; try done.
    + intros (item' & [= <-] & H). congruence.
    + intros _. by exists item.
  - split; [done|]. by intros (item & H & _).
Qed.

(** C5.  Releasing a temporary item closes its config and counts it as
    destroyed, and whatever calls follow, no acquire returns that item
    again.  Releasing a non-temporary item sets [inUse] to false and
    [lastUsed] to the clock, in place; the next acquire then returns an
    item of the pool array without building a temporary one, and it
    returns this very item when no other item of the array is free. *)
Theorem returnConfigToPool_spec r item now st :
  poolWf st -> objects st !! r = Some item ->
  (temporary item = true ->
   returnConfigToPool r now st
   = (Returned tt,
      mkService (objects st) (configPool st) (poolSize st)
        (Stats.mk (Stats.created (poolStats st)) (Stats.reused (poolStats st))
           (S (Stats.destroyed (poolStats st))))
        (sdkCalls st) (config item :: closedConfigs st) (console st))
   /\ forall (calls : list Call) now' r' st',
        getConfigFromPool sdkThrows now'
          (run sdkThrows (snd (returnConfigToPool r now st)) calls)
        = (Returned r', st') ->
        r' <> r)
  /\ (temporary item = false ->
      returnConfigToPool r now st
      = (Returned tt,
         mkService
           (<[r := mkItem (config item) false false (created item) now]>
              (objects st))
           (configPool st) (poolSize st) (poolStats st) (sdkCalls st)
           (closedConfigs st) (console st))
      /\ forall now', exists r' st',
           getConfigFromPool sdkThrows now'
             (snd (returnConfigToPool r now st))
           = (Returned r', st')
           /\ r' ∈ configPool st
           /\ sdkCalls st' = sdkCalls st
           /\ ((forall r0 item0, r0 ∈ configPool st -> r0 <> r ->
                  objects st !! r0 = Some item0 -> inUse item0 = true) ->
               r' = r)).
Proof.
  intros Hwf Hr. split.
  - intros Ht. split; [by apply returnConfigToPool_temporary|].
    intros calls now' r' st' Hacq.
    set (st1 := snd (returnConfigToPool r now st)) in *.
    set (st2 := run sdkThrows st1 calls) in *.
    assert (Hext : extends st st2).
    { eapply extends_trans;
        [apply returnConfigToPool_extends | apply run_extends]. }
    destruct Hext as (Hp & _ & Hlen & _).
    assert (Hnotin : r ∉ configPool st).
    { intros Hin. destruct Hwf as (_ & Hpool & _).
      destruct (Hpool r Hin) as (item' & Hr' & Ht'). congruence. }
    destruct (List.find (isAvailable st2) (configPool st2)) as [r2|] eqn:Hfind.
    + destruct (find_isAvailable _ _ Hfind) as (Hin & item2 & Hr2 & _).
      rewrite (getConfigFromPool_reuse now' _ _ _ Hfind Hr2) in Hacq.
      injection Hacq as <- _. rewrite Hp in Hin. by intros ->.
    + destruct (sdkThrows (sdkCalls st2)) eqn:Hsdk.
      * rewrite getConfigFromPool_throws in Hacq by done. discriminate.
      * rewrite getConfigFromPool_temporary in Hacq by done.
        injection Hacq as <- _. apply lookup_lt_Some in Hr. lia.
  - intros Ht.
    pose proof (returnConfigToPool_pooled r now st item Hr Ht) as Heq.
    split; [done|]. rewrite Heq. simpl.
    set (st1 := mkService _ _ _ _ _ _ _).
    assert (Hin : r ∈ configPool st) by by destruct Hwf as (_ & _ & Hrest);
      apply (Hrest r item).
    assert (Hav : isAvailable st1 r = true).
    { apply isAvailable_true.
      exists (mkItem (config item) false false (created item) now).
      split; [|done]. subst st1. simpl.
      apply list_lookup_insert_eq. by apply lookup_lt_Some in Hr. }
    intros now'.
    destruct (List.find (isAvailable st1) (configPool st1)) as [r'|] eqn:Hfind.
    + destruct (find_isAvailable _ _ Hfind) as (Hin' & item' & Hr' & Hfree').
      eexists r', _. split; [by apply (getConfigFromPool_reuse now' st1)|].
      split; [done|]. split; [done|].
      intros Hbusy. destruct (decide (r' = r)) as [|Hne]; [done|].
      subst st1. simpl in Hr'. rewrite list_lookup_insert_ne in Hr' by done.
      pose proof (Hbusy r' item' Hin' Hne Hr'). congruence.
    + pose proof (List.find_none _ _ Hfind r) as Hno.
      rewrite Hav in Hno. discriminate Hno. by apply list_elem_of_In.
Qed.

(** *** Maintenance *)

Lemma forEach_app (f : Ref -> M unit) refs1 refs2 st :
  forEach f (refs1 ++ refs2) st
  = match forEach f refs1 st with
    | (Returned _, st1) => forEach f refs2 st1
    | (Thrown e, st1) => (Thrown e, st1)
    end.
Proof.
  revert st. induction refs1 as [|r refs1 IH]; intros st; simpl; [done|].
  unfold bind. destruct (f r st) as [[[]|e] st1]; [apply IH|done].
Qed.

(** The callback touches no item but its own, and not even that one
    unless it is stale. *)
Lemma refreshIfStale_frame now r0 st r item :
  objects st !! r = Some item -> r <> r0 \/ isStale now item = false ->
  objects (snd (refreshIfStale sdkThrows now r0 st)) !! r = Some item.
Proof.
  intros Hr Hcase. destruct (objects st !! r0) as [item0|] eqn:Hr0.
  - destruct (isStale now item0) eqn:Hs.
    + assert (Hne : r0 <> r) by (intros ->; destruct Hcase; congruence).
      destruct (sdkThrows (sdkCalls st)) eqn:Hsdk.
      * by rewrite (refreshIfStale_throws _ _ _ _ Hr0 Hs Hsdk).
      * rewrite (refreshIfStale_stale _ _ _ _ Hr0 Hs Hsdk). simpl.
        by rewrite list_lookup_insert_ne.
    + by rewrite (refreshIfStale_fresh _ _ _ _ Hr0 Hs).
  - by rewrite refreshIfStale_undefined.
Qed.

Lemma forEach_frame now refs st r item :
  objects st !! r = Some item -> r ∉ refs \/ isStale now item = false ->
  objects (snd (forEach (refreshIfStale sdkThrows now) refs st)) !! r
  = Some item.
Proof.
  revert st. induction refs as [|r0 refs IH]; intros st Hr Hcase; simpl;
    [done|].
  assert (H1 : objects (snd (refreshIfStale sdkThrows now r0 st)) !! r
               = Some item).
  { apply refreshIfStale_frame; [done|].
    destruct Hcase as [Hnotin|Hfresh]; [left|by right].
    intros ->. apply Hnotin, list_elem_of_here. }
  unfold bind.
  destruct (refreshIfStale sdkThrows now r0 st) as [[[]|e] st1];
    simpl in *; [|done].
  apply IH; [done|]. destruct Hcase as [Hnotin|Hfresh]; [left|by right].
  intros Hin. apply Hnotin. by apply list_elem_of_further.
Qed.

Lemma refreshIfStale_length now r st :
  length (objects (snd (refreshIfStale sdkThrows now r st)))
  = length (objects st).
Proof.
  destruct (objects st !! r) as [item|] eqn:Hr.
  - destruct (isStale now item) eqn:Hs.
    + destruct (sdkThrows (sdkCalls st)) eqn:Hsdk.
      * by rewrite (refreshIfStale_throws _ _ _ _ Hr Hs Hsdk).
      * rewrite (refreshIfStale_stale _ _ _ _ Hr Hs Hsdk). simpl.
        apply length_insert.
    + by rewrite (refreshIfStale_fresh _ _ _ _ Hr Hs).
  - by rewrite refreshIfStale_undefined.
Qed.

Lemma forEach_length now refs st :
  length (objects (snd (forEach (refreshIfStale sdkThrows now) refs st)))
  = length (objects st).
Proof.
  revert st. induction refs as [|r refs IH]; intros st; simpl; [done|].
  unfold bind. pose proof (refreshIfStale_length now r st) as Hlen.
  destruct (refreshIfStale sdkThrows now r st) as [[[]|e] st1];
    simpl in *; [|done].
  by rewrite IH.
Qed.

(** A sweep during which the SDK does not throw. *)
Lemma forEach_refresh now refs st :
  NoDup refs ->
  (forall r, r ∈ refs -> is_Some (objects st !! r)) ->
  (forall n, (sdkCalls st <= n)%nat -> sdkThrows n = false) ->
  exists st',
    forEach (refreshIfStale sdkThrows now) refs st = (Returned tt, st')
    /\ (sdkCalls st <= sdkCalls st')%nat
    /\ (forall h, h ∈ closedConfigs st -> h ∈ closedConfigs st')
    /\ (forall r item, objects st !! r = Some item ->
          r ∈ refs -> isStale now item = true ->
          exists h,
            objects st' !! r
            = Some (mkItem h (inUse item) (temporary item) now now)
            /\ (sdkCalls st <= h < sdkCalls st')%nat
            /\ config item ∈ closedConfigs st').
Proof.
  revert st. induction refs as [|r0 refs IH]; intros st Hnd Hvalid Hsdk.
  - exists st. simpl. split_and!; [done|done|done|].
    intros r item _ Hin. by apply elem_of_nil in Hin.
  - apply NoDup_cons in Hnd as [Hnotin Hnd].
    destruct (Hvalid r0) as [item0 Hr0]; [apply list_elem_of_here|].
    simpl. unfold bind.
    destruct (isStale now item0) eqn:Hs0.
    + rewrite (refreshIfStale_stale _ _ _ _ Hr0 Hs0) by by apply Hsdk.
      set (st1 := mkService _ _ _ _ _ _ _).
      destruct (IH st1 Hnd) as (st' & Hrun & Hcalls & Hclosed & Hstale).
      { intros r Hr. subst st1. simpl.
        apply lookup_lt_is_Some. rewrite length_insert.
        apply lookup_lt_is_Some, Hvalid. by apply list_elem_of_further. }
      { intros n Hn. apply Hsdk. subst st1. simpl in Hn. lia. }
      assert (Hr0' : objects st' !! r0
                     = Some (mkItem (sdkCalls st) (inUse item0)
                               (temporary item0) now now)).
      { replace st' with
          (snd (forEach (refreshIfStale sdkThrows now) refs st1))
          by by rewrite Hrun.
        apply forEach_frame; [|by left]. subst st1. simpl.
        apply list_lookup_insert_eq. by apply lookup_lt_Some in Hr0. }
      exists st'. subst st1. simpl in *. split_and!; [done|lia| |].
      * intros h Hh. apply Hclosed. by apply list_elem_of_further.
      * intros r item Hr Hin Hs.
        apply elem_of_cons in Hin as [->|Hin].
        -- assert (item = item0) as -> by congruence.
           exists (sdkCalls st). split; [done|]. split; [lia|].
           apply Hclosed, list_elem_of_here.
        -- assert (Hne : r0 <> r) by (intros ->; done).
           destruct (Hstale r item) as (h & Hh & Hrange & Hcl); [|done|done|].
           { by rewrite list_lookup_insert_ne. }
           exists h. split; [done|]. split; [lia|done].
    + rewrite (refreshIfStale_fresh _ _ _ _ Hr0 Hs0).
      destruct (IH st Hnd) as (st' & Hrun & Hcalls & Hclosed & Hstale).
      { intros r Hr. apply Hvalid. by apply list_elem_of_further. }
      { done. }
      exists st'. split_and!; [done|done|done|].
      intros r item Hr Hin Hs.
      apply elem_of_cons in Hin as [->|Hin]; [congruence|].
      by apply Hstale.
Qed.

(** C8.  A maintenance sweep leaves every item that is temporary, in use,
    or used within the last five minutes exactly as it was, whether or not
    the SDK throws.  When the SDK does not throw, the sweep returns, and
    every non-temporary item that is not in use and whose [lastUsed] is
    more than five minutes old has its config closed and replaced, in
    place, by a newly constructed one, with [created] and [lastUsed] set
    to the clock and [inUse] still false. *)
Theorem performPoolMaintenance_spec now st :
  poolWf st ->
  (forall r item, objects st !! r = Some item ->
     temporary item = true \/ inUse item = true
     \/ now - lastUsed item <= 5 * 60 * 1000 ->
     objects (snd (performPoolMaintenance sdkThrows now st)) !! r = Some item)
  /\ ((forall n, (sdkCalls st <= n)%nat -> sdkThrows n = false) ->
      exists st',
        performPoolMaintenance sdkThrows now st = (Returned tt, st')
        /\ configPool st' = configPool st
        /\ length (objects st') = length (objects st)
        /\ (forall r item, objects st !! r = Some item ->
              temporary item = false -> inUse item = false ->
              5 * 60 * 1000 < now - lastUsed item ->
              exists h,
                objects st' !! r = Some (mkItem h false false now now)
                /\ (sdkCalls st <= h < sdkCalls st')%nat
                /\ config item ∈ closedConfigs st')).
Proof.
  intros Hwf. split.
  - intros r item Hr Hcase. apply forEach_frame; [done|].
    destruct Hcase as [Ht|[Hu|Hfresh]].
    + left. intros Hin. destruct Hwf as (_ & Hpool & _).
      destruct (Hpool r Hin) as (item' & Hr' & Ht'). congruence.
    + right. unfold isStale. by rewrite Hu.
    + right. unfold isStale.
      destruct (Z.ltb_spec maxAge (now - lastUsed item)) as [Hlt|_];
        [unfold maxAge in Hlt; lia | apply andb_false_r].
  - intros Hsdk. destruct Hwf as (Hnd & Hpool & Hrest).
    destruct (forEach_refresh now (configPool st) st Hnd)
      as (st' & Hrun & Hcalls & Hclosed & Hstale); [|done|].
    { intros r Hin. destruct (Hpool r Hin) as (item & Hr & _). by exists item. }
    exists st'. split; [done|].
    pose proof (performPoolMaintenance_extends now st) as Hext.
    unfold performPoolMaintenance in Hext. rewrite Hrun in Hext.
    destruct Hext as (Hp & _). simpl in Hp.
    split; [done|]. split.
    + replace st' with
        (snd (forEach (refreshIfStale sdkThrows now) (configPool st) st))
        by by rewrite Hrun.
      apply forEach_length.
    + intros r item Hr Ht Hu Hold'.
      destruct (Hstale r item Hr) as (h & Hh & Hrange & Hcl).
      * by apply (Hrest r item).
      * unfold isStale. rewrite Hu. simpl. apply Z.ltb_lt.
        unfold maxAge. lia.
      * exists h. rewrite Hu, Ht in Hh. done.
Qed.

(** C9, as the code has it.  When the construction of the new config of a
    stale item throws, the sweep ends there with that exception: the items
    before it in the pool array have been visited, the stale item keeps
    its old config, which has been closed, and no item after it in the
    array is visited or changed. *)
Theorem maintenance_stops_at_failure now st before r after item st1 :
  NoDup (configPool st) ->
  configPool st = before ++ r :: after ->
  forEach (refreshIfStale sdkThrows now) before st = (Returned tt, st1) ->
  objects st !! r = Some item -> isStale now item = true ->
  sdkThrows (sdkCalls st1) = true ->
  performPoolMaintenance sdkThrows now st
  = (Thrown SdkError,
     mkService (objects st1) (configPool st1) (poolSize st1) (poolStats st1)
       (S (sdkCalls st1)) (config item :: closedConfigs st1) (console st1))
  /\ objects st1 !! r = Some item
  /\ (forall r', r' ∈ after -> objects st1 !! r' = objects st !! r').
Proof.
  intros Hnd Hpool Hrun Hr Hs Hsdk.
  rewrite Hpool in Hnd. apply NoDup_app in Hnd as (_ & Hdisj & Hnd).
  apply NoDup_cons in Hnd as [Hnotin _].
  assert (Hr1 : objects st1 !! r = Some item).
  { replace st1 with
      (snd (forEach (refreshIfStale sdkThrows now) before st))
      by by rewrite Hrun.
    apply forEach_frame; [done|]. left. intros Hin.
    apply (Hdisj r Hin), list_elem_of_here. }
  split_and!; [|done|].
  - unfold performPoolMaintenance. rewrite Hpool, forEach_app, Hrun. simpl.
    unfold bind. by rewrite (refreshIfStale_throws _ _ _ _ Hr1 Hs Hsdk).
  - intros r' Hin.
    destruct (objects st !! r') as [item'|] eqn:Hr'.
    + replace st1 with
        (snd (forEach (refreshIfStale sdkThrows now) before st))
        by by rewrite Hrun.
      apply forEach_frame; [done|]. left. intros Hin'.
      apply (Hdisj r' Hin'). by apply list_elem_of_further.
    + pose proof (forEach_length now before st) as Hlen.
      rewrite Hrun in Hlen. simpl in Hlen.
      apply lookup_ge_None. apply lookup_ge_None in Hr'. lia.
Qed.

End Facts.

(** *** The pool on concrete inputs *)

Import Examples.

Lemma poolWf_freshPool : poolWf freshPool.
Proof. by apply poolWf_initialized. Qed.

(** The overflow scenario of the specification: of eight acquisitions on
    the fresh pool five reuse a pooled item and three build a temporary
    one; after the eight releases the three temporary configs are closed
    and the five pooled items are free again. *)
Example pool_overflow :
  let st := run sdkReliable freshPool (firstn 16 overflowCalls) in
  poolStats st = Stats.mk 8 5 3
  /\ closedConfigs st = [7; 6; 5]%nat
  /\ configPool st = [0; 1; 2; 3; 4]%nat
  /\ length (List.filter (isAvailable st) (configPool st)) = 5%nat.
Proof. by vm_compute. Qed.

Lemma getConfigFromPool_spec_witness :
  poolWf freshPool
  /\ exists r st',
       getConfigFromPool sdkReliable 1000 freshPool = (Returned r, st')
       /\ sdkCalls st' = sdkCalls freshPool.
Proof.
  assert (Hwf : poolWf freshPool) by exact poolWf_freshPool.
  split; [exact Hwf|].
  destruct (proj1 (getConfigFromPool_spec sdkReliable 1000 freshPool Hwf))
    as (r & item & Hr & _ & _ & Heq).
  - exists 0%nat, (mkItem 0 false false 0 0). by vm_compute.
  - rewrite Heq. eexists _, _. split; reflexivity.
Defined.

Lemma returnConfigToPool_spec_witness :
  (poolWf freshPool
   /\ objects freshPool !! 0%nat = Some (mkItem 0 false false 0 0))
  /\ fst (returnConfigToPool 0 2000 freshPool) = Returned tt.
Proof.
  assert (Hwf : poolWf freshPool) by exact poolWf_freshPool.
  assert (Hr : objects freshPool !! 0%nat = Some (mkItem 0 false false 0 0))
    by reflexivity.
  split; [by split|].
  destruct (proj2 (returnConfigToPool_spec sdkReliable 0
                     (mkItem 0 false false 0 0) 2000 freshPool Hwf Hr)
              eq_refl) as [Heq _].
  by rewrite Heq.
Defined.

Lemma performPoolMaintenance_spec_witness :
  poolWf freshPool
  /\ exists st',
       performPoolMaintenance sdkReliable 400000 freshPool = (Returned tt, st')
       /\ configPool st' = configPool freshPool.
Proof.
  assert (Hwf : poolWf freshPool) by exact poolWf_freshPool.
  split; [exact Hwf|].
  destruct (proj2 (performPoolMaintenance_spec sdkReliable 400000 freshPool
                     Hwf) (fun _ _ => eq_refl))
    as (st' & Hrun & Hpool & _).
  exists st'. split; [exact Hrun | exact Hpool].
Defined.

Lemma pool_slots_invariant_witness :
  (forall n, (n < 5)%nat -> sdkReliable n = false)
  /\ configPool (run sdkReliable freshPool overflowCalls)
     = configPool freshPool.
Proof.
  assert (Hsdk : forall n, (n < 5)%nat -> sdkReliable n = false)
    by (intros n _; reflexivity).
  split; [exact Hsdk|].
  exact (proj1 (proj2 (proj2 (proj2
           (pool_slots_invariant sdkReliable 0 overflowCalls Hsdk))))).
Defined.

(** C4, as the specification words it, fails: the five items of the pool
    are in use, a temporary item has to be built, and the SDK constructor
    throws; the exception leaves the acquire and no item is returned. *)
Lemma acquire_fails_with_constructor :
  ~ acquireNeverFails (sdkFailsAt 5) 1000 exhaustedPool.
Proof.
  intros (r & st' & Hacq & _).
  assert (E : fst (getConfigFromPool (sdkFailsAt 5) 1000 exhaustedPool)
              = Thrown SdkError) by (vm_compute; reflexivity).
  rewrite Hacq in E. discriminate E.
Qed.

(** The state of that acquire is one that the service reaches: the pool is
    well formed, only exhausted. *)
Example acquire_fails_state :
  poolWf exhaustedPool
  /\ getConfigFromPool (sdkFailsAt 5) 1000 exhaustedPool
     = (Thrown SdkError,
        mkService
          [mkItem 0 true false 0 10; mkItem 1 true false 0 11;
           mkItem 2 true false 0 12; mkItem 3 true false 0 13;
           mkItem 4 true false 0 14]
          [0; 1; 2; 3; 4]%nat 5 (Stats.mk 5 5 0) 6 []
          [LogInitializing; LogCreatingPool; LogAllInUse]).
Proof.
  split; [|by vm_compute].
  eapply poolWf_extends; [|apply run_extends].
  apply poolWf_initialized. intros n Hn.
  do 5 (destruct n as [|n]; [reflexivity|]). lia.
Qed.

(** C9, as the specification words it, fails: all five items of the pool
    are stale, the construction of the new config of the first one
    throws, and the other four are never visited. *)
Lemma sweep_aborted_by_failure :
  ~ sweepIsolatesFailure (sdkFailsAt 5) 400000 0
      (snd (initializeConfigPool (sdkFailsAt 5) 0 constructor)).
Proof.
  unfold sweepIsolatesFailure. intros H.
  assert (Hclosed :
    closedConfigs
      (snd (performPoolMaintenance (sdkFailsAt 5) 400000
              (snd (initializeConfigPool (sdkFailsAt 5) 0 constructor))))
    = [0%nat]) by (vm_compute; reflexivity).
  specialize (H 1%nat (mkItem 1 false false 0 0)).
  rewrite Hclosed in H.
  assert (Hin : 1%nat ∈ [0%nat]).
  { apply H.
    - apply list_elem_of_In. vm_compute. tauto.
    - discriminate.
    - vm_compute. reflexivity.
    - vm_compute. reflexivity. }
  apply list_elem_of_singleton in Hin. discriminate Hin.
Qed.

Example sweep_aborted_state :
  performPoolMaintenance (sdkFailsAt 5) 400000
    (snd (initializeConfigPool (sdkFailsAt 5) 0 constructor))
  = (Thrown SdkError,
     mkService
       [mkItem 0 false false 0 0; mkItem 1 false false 0 0;
        mkItem 2 false false 0 0; mkItem 3 false false 0 0;
        mkItem 4 false false 0 0]
       [0; 1; 2; 3; 4]%nat 5 (Stats.mk 5 0 0) 6 [0%nat]
       [LogInitializing; LogCreatingPool]).
Proof. by vm_compute. Qed.

Lemma maintenance_stops_at_failure_witness :
  (NoDup (configPool (snd (initializeConfigPool (sdkFailsAt 5) 0 constructor)))
   /\ configPool (snd (initializeConfigPool (sdkFailsAt 5) 0 constructor))
      = [] ++ 0%nat :: [1; 2; 3; 4]%nat
   /\ isStale 400000 (mkItem 0 false false 0 0) = true
   /\ sdkFailsAt 5
        (sdkCalls (snd (initializeConfigPool (sdkFailsAt 5) 0 constructor)))
      = true)
  /\ fst (performPoolMaintenance (sdkFailsAt 5) 400000
            (snd (initializeConfigPool (sdkFailsAt 5) 0 constructor)))
     = Thrown SdkError.
Proof.
  assert (Hnd : NoDup (configPool
                         (snd (initializeConfigPool (sdkFailsAt 5) 0
                                 constructor)))).
  { apply (bool_decide_unpack _). by vm_compute. }
  assert (Hpool : configPool
                    (snd (initializeConfigPool (sdkFailsAt 5) 0 constructor))
                  = [] ++ 0%nat :: [1; 2; 3; 4]%nat) by reflexivity.
  assert (Hs : isStale 400000 (mkItem 0 false false 0 0) = true)
    by reflexivity.
  assert (Hsdk : sdkFailsAt 5
                   (sdkCalls (snd (initializeConfigPool (sdkFailsAt 5) 0
                                     constructor))) = true) by reflexivity.
  split; [by split_and!|].
  destruct (maintenance_stops_at_failure (sdkFailsAt 5) 400000 _ [] 0%nat
              [1; 2; 3; 4]%nat (mkItem 0 false false 0 0) _
              Hnd Hpool eq_refl eq_refl Hs Hsdk) as [Heq _].
  by rewrite Heq.
Defined.

End PoolFacts.

(** ** The speech service around the pool *)
Module SpeechFacts.
Import Pool PoolFacts Speech.
Local Open Scope pool_scope.

Section Facts.
Variable sdkThrows : nat -> bool.
Implicit Types (st : SpeechService) (r : Ref) (item : PoolItem)
  (inst : Instance).

(** *** Initialization of the pool *)

Lemma body_returns now st :
  sdkThrows (sdkCalls st) = false ->
  loopBody sdkThrows now st
  = (Returned tt,
     mkService (objects st ++ [mkItem (sdkCalls st) false false now now])
       (configPool st ++ [length (objects st)]) (poolSize st)
       (Stats.mk (S (Stats.created (poolStats st)))
          (Stats.reused (poolStats st)) (Stats.destroyed (poolStats st)))
       (S (sdkCalls st)) (closedConfigs st) (console st)).
Proof.
  intros Hsdk. unfold loopBody, bind, fromSubscription, alloc, modify,
    countCreated, withConfigPool, withPoolStats, withObjects.
  by rewrite Hsdk.
Qed.

Lemma body_throws now st :
  sdkThrows (sdkCalls st) = true ->
  loopBody sdkThrows now st
  = (Thrown SdkError,
     mkService (objects st) (configPool st) (poolSize st) (poolStats st)
       (S (sdkCalls st)) (closedConfigs st) (console st)).
Proof.
  intros Hsdk. unfold loopBody, bind, fromSubscription. by rewrite Hsdk.
Qed.

Lemma pooledItems_S first n now :
  pooledItems first (S n) now
  = mkItem first false false now now :: pooledItems (S first) n now.
Proof.
  unfold pooledItems. simpl. rewrite Nat.add_0_r. f_equal.
  rewrite <- seq_shift, map_map. apply map_ext. intros k.
  by rewrite Nat.add_succ_r.
Qed.

Lemma times_returns now n st :
  (forall k, (k < n)%nat -> sdkThrows (sdkCalls st + k) = false) ->
  times n (loopBody sdkThrows now) st
  = (Returned tt,
     mkService (objects st ++ pooledItems (sdkCalls st) n now)
       (configPool st ++ seq (length (objects st)) n) (poolSize st)
       (Stats.mk (Stats.created (poolStats st) + n)
          (Stats.reused (poolStats st)) (Stats.destroyed (poolStats st)))
       (sdkCalls st + n) (closedConfigs st) (console st)).
Proof.
  revert st. induction n as [|n IH]; intros st Hsdk.
  - destruct st as [? ? ? [? ? ?] ? ? ?]. simpl. unfold ret.
    by rewrite !app_nil_r, !Nat.add_0_r.
  - cbn [times]. unfold bind at 1.
    rewrite body_returns
      by (rewrite <- (Nat.add_0_r (sdkCalls st)); apply Hsdk; lia).
    rewrite IH.
    + cbn [objects configPool poolSize poolStats sdkCalls closedConfigs
           console Stats.created Stats.reused Stats.destroyed].
      rewrite pooledItems_S, <- !app_assoc, length_app. simpl.
      by rewrite !Nat.add_succ_r, !Nat.add_0_r.
    + intros k Hk. cbn [sdkCalls].
      replace (S (sdkCalls st) + k)%nat with (sdkCalls st + S k)%nat by lia.
      apply Hsdk. lia.
Qed.

Lemma times_throws now n k st :
  (k < n)%nat ->
  (forall j, (j < k)%nat -> sdkThrows (sdkCalls st + j) = false) ->
  sdkThrows (sdkCalls st + k) = true ->
  times n (loopBody sdkThrows now) st
  = (Thrown SdkError,
     mkService (objects st ++ pooledItems (sdkCalls st) k now)
       (configPool st ++ seq (length (objects st)) k) (poolSize st)
       (Stats.mk (Stats.created (poolStats st) + k)
          (Stats.reused (poolStats st)) (Stats.destroyed (poolStats st)))
       (S (sdkCalls st + k)) (closedConfigs st) (console st)).
Proof.
  revert k st. induction n as [|n IH]; intros k st Hk Hbefore Hat; [lia|].
  cbn [times]. unfold bind at 1. destruct k as [|k].
  - rewrite Nat.add_0_r in Hat. rewrite body_throws by done.
    destruct st as [? ? ? [? ? ?] ? ? ?]. simpl.
    by rewrite !app_nil_r, !Nat.add_0_r.
  - rewrite body_returns
      by (rewrite <- (Nat.add_0_r (sdkCalls st)); apply Hbefore; lia).
    rewrite (IH k).
    + cbn [objects configPool poolSize poolStats sdkCalls closedConfigs
           console Stats.created Stats.reused Stats.destroyed].
      rewrite pooledItems_S, <- !app_assoc, length_app. simpl.
      by rewrite !Nat.add_succ_r, !Nat.add_0_r.
    + lia.
    + intros j Hj. cbn [sdkCalls].
      replace (S (sdkCalls st) + j)%nat with (sdkCalls st + S j)%nat by lia.
      apply Hbefore. lia.
    + cbn [sdkCalls].
      by replace (S (sdkCalls st) + k)%nat with (sdkCalls st + S k)%nat by lia.
Qed.

Lemma initializeConfigPool_times now st :
  initializeConfigPool sdkThrows now st
  = times (poolSize st) (loopBody sdkThrows now)
      (mkService (objects st) (configPool st) (poolSize st) (poolStats st)
         (sdkCalls st) (closedConfigs st) (console st ++ [LogCreatingPool])).
Proof. done. Qed.

(** X9.  [initializeConfigPool] appends to the pool array, it does not
    reset it: when the constructor does not throw, it returns with
    [poolSize] new items, free and not temporary, added after whatever
    the array held, each with a config of its own, and it counts them in
    [created]. *)
Theorem initializeConfigPool_appends now st :
  (forall k, (k < poolSize st)%nat -> sdkThrows (sdkCalls st + k) = false) ->
  initializeConfigPool sdkThrows now st
  = (Returned tt,
     mkService
       (objects st ++ pooledItems (sdkCalls st) (poolSize st) now)
       (configPool st ++ seq (length (objects st)) (poolSize st))
       (poolSize st)
       (Stats.mk (Stats.created (poolStats st) + poolSize st)
          (Stats.reused (poolStats st)) (Stats.destroyed (poolStats st)))
       (sdkCalls st + poolSize st) (closedConfigs st)
       (console st ++ [LogCreatingPool])).
Proof.
  intros Hsdk. rewrite initializeConfigPool_times.
  by rewrite times_returns by exact Hsdk.
Qed.

(** X10.  When the constructor throws at its call number [k] of the
    initialization ([k] counted from 0, below [poolSize]) and not before,
    [initializeConfigPool] ends with that exception and leaves the [k]
    items made so far in the pool array, counted in [created]. *)
Theorem initializeConfigPool_partial now st k :
  (k < poolSize st)%nat ->
  (forall j, (j < k)%nat -> sdkThrows (sdkCalls st + j) = false) ->
  sdkThrows (sdkCalls st + k) = true ->
  initializeConfigPool sdkThrows now st
  = (Thrown SdkError,
     mkService
       (objects st ++ pooledItems (sdkCalls st) k now)
       (configPool st ++ seq (length (objects st)) k)
       (poolSize st)
       (Stats.mk (Stats.created (poolStats st) + k)
          (Stats.reused (poolStats st)) (Stats.destroyed (poolStats st)))
       (S (sdkCalls st + k)) (closedConfigs st)
       (console st ++ [LogCreatingPool])).
Proof.
  intros Hk Hbefore Hat. rewrite initializeConfigPool_times.
  by rewrite (times_throws now (poolSize st) k).
Qed.

(** *** Statistics and health *)

Lemma isAvailable_isInUse st r :
  is_Some (objects st !! r) -> isAvailable st r = negb (isInUse st r).
Proof. intros [item H]. unfold isAvailable, isInUse. by rewrite H. Qed.

Lemma inUse_available_partition st (refs : list Ref) :
  (forall r, r ∈ refs -> is_Some (objects st !! r)) ->
  (length (List.filter (isInUse st) refs)
   + length (List.filter (isAvailable st) refs))%nat
  = length refs.
Proof.
  induction refs as [|r refs IH]; intros Hvalid; [done|].
  cbn [List.filter]. rewrite isAvailable_isInUse
    by apply Hvalid, list_elem_of_here.
  specialize (IH (fun r' Hr' => Hvalid r' (list_elem_of_further _ _ _ Hr'))).
  destruct (isInUse st r); simpl; lia.
Qed.

Lemma poolWf_valid st r :
  poolWf st -> r ∈ configPool st -> is_Some (objects st !! r).
Proof.
  intros (_ & Hpool & _) Hr. destruct (Hpool r Hr) as (item & H & _).
  by exists item.
Qed.

(** X11.  After a successful initialization and any sequence of acquire,
    release and maintenance calls, [getPoolStats] reports [poolSize = 5]
    and an [inUse] and an [available] count that add up to it: temporary
    items are never counted, and no pooled item is lost or counted
    twice. *)
Theorem getPoolStats_partition now (calls : list Call) :
  (forall n, (n < 5)%nat -> sdkThrows n = false) ->
  let st :=
    run sdkThrows (snd (initializeConfigPool sdkThrows now constructor))
      calls in
  let stats := getPoolStats st in
  PoolStats.poolSize stats = 5%nat
  /\ (PoolStats.inUse stats + PoolStats.available stats)%nat
     = PoolStats.poolSize stats.
Proof.
  intros Hsdk st stats.
  pose proof (run_extends sdkThrows
                (snd (initializeConfigPool sdkThrows now constructor)) calls)
    as Hext. fold st in Hext.
  pose proof (poolWf_extends _ _ (poolWf_initialized sdkThrows now Hsdk) Hext)
    as Hwf.
  destruct Hext as (Hp & Hs & _).
  rewrite (initializeConfigPool_returns sdkThrows now Hsdk) in Hp, Hs.
  simpl in Hp, Hs. subst stats. unfold getPoolStats.
  cbn [PoolStats.poolSize PoolStats.inUse PoolStats.available].
  split; [done|].
  rewrite inUse_available_partition by (intros r; by apply poolWf_valid).
  by rewrite Hp, Hs.
Qed.

(** X12.  [checkHealth] is false before initialization; afterwards it is
    true exactly when the next acquire is served from the pool array,
    without a call of the SDK constructor, and so false exactly when the
    next acquire has to build a temporary config. *)
Theorem checkHealth_iff_reuse inst now :
  (initialized inst = false -> checkHealth inst = false)
  /\ (initialized inst = true ->
      (checkHealth inst = true <->
       exists r st',
         getConfigFromPool sdkThrows now (service inst) = (Returned r, st')
         /\ r ∈ configPool (service inst)
         /\ sdkCalls st' = sdkCalls (service inst))).
Proof.
  unfold checkHealth. split; intros ->; [done|]. simpl.
  set (st := service inst). split.
  - intros (r0 & Hin0 & Hav0)%existsb_exists.
    destruct (List.find (isAvailable st) (configPool st)) as [r|] eqn:Hfind.
    + destruct (find_isAvailable _ _ Hfind) as (Hin & item & Hr & _).
      eexists r, _. split; [by apply getConfigFromPool_reuse|]. by split.
    + pose proof (List.find_none _ _ Hfind r0 Hin0). congruence.
  - intros (r & st' & Hacq & Hin & Hcalls).
    destruct (List.find (isAvailable st) (configPool st)) as [r0|] eqn:Hfind.
    + apply existsb_exists. exists r0. by apply List.find_some.
    + destruct (sdkThrows (sdkCalls st)) eqn:Hsdk.
      * rewrite getConfigFromPool_throws in Hacq by done. discriminate.
      * rewrite getConfigFromPool_temporary in Hacq by done.
        injection Hacq as _ <-. simpl in Hcalls. lia.
Qed.

(** *** A request: acquire, then release *)

(** X13.  A request that acquires an item and releases it leaves the pool
    as it found it: the pool array, every item's config and [inUse],
    [temporary] and [created] properties, and the [inUse] and
    [available] counts of the statistics are as before, and no item other
    than the acquired one is changed at all; when a temporary item was
    built for the request, its config has been closed. *)
Theorem acquire_release now1 now2 st r st1 :
  poolWf st ->
  getConfigFromPool sdkThrows now1 st = (Returned r, st1) ->
  exists st2,
    returnConfigToPool r now2 st1 = (Returned tt, st2)
    /\ configPool st2 = configPool st
    /\ (forall r' item, objects st !! r' = Some item ->
          exists item',
            objects st2 !! r' = Some item'
            /\ config item' = config item /\ inUse item' = inUse item
            /\ temporary item' = temporary item
            /\ created item' = created item
            /\ (r' <> r -> item' = item))
    /\ PoolStats.inUse (getPoolStats st2) = PoolStats.inUse (getPoolStats st)
    /\ PoolStats.available (getPoolStats st2)
       = PoolStats.available (getPoolStats st)
    /\ (objects st !! r = None ->
        exists item, objects st2 !! r = Some item /\ temporary item = true
                     /\ config item ∈ closedConfigs st2).
Proof.
  intros Hwf Hacq.
  assert (Hcounts : forall st2,
    configPool st2 = configPool st ->
    (forall r' item, objects st !! r' = Some item ->
       exists item', objects st2 !! r' = Some item'
                     /\ inUse item' = inUse item) ->
    PoolStats.inUse (getPoolStats st2) = PoolStats.inUse (getPoolStats st)
    /\ PoolStats.available (getPoolStats st2)
       = PoolStats.available (getPoolStats st)).
  { intros st2 Hp Hsame. unfold getPoolStats.
    cbn [PoolStats.inUse PoolStats.available]. rewrite Hp.
    split; f_equal; apply filter_ext_in; intros r' Hr';
      apply list_elem_of_In in Hr';
      destruct (poolWf_valid _ _ Hwf Hr') as [item Hitem];
      destruct (Hsame _ _ Hitem) as (item' & Hitem' & Hu);
      unfold isInUse, isAvailable; by rewrite Hitem, Hitem', Hu. }
  destruct (List.find (isAvailable st) (configPool st)) as [r0|] eqn:Hfind.
  - destruct (find_isAvailable _ _ Hfind) as (Hin & item & Hr & Hfree).
    rewrite (getConfigFromPool_reuse sdkThrows now1 _ _ _ Hfind Hr) in Hacq.
    injection Hacq as <- <-.
    assert (Ht : temporary item = false).
    { destruct Hwf as (_ & Hpool & _).
      destruct (Hpool r0 Hin) as (item' & Hr' & Ht'). congruence. }
    assert (Hlt : (r0 < length (objects st))%nat)
      by by apply lookup_lt_Some in Hr.
    eexists. split.
    { eapply returnConfigToPool_pooled; simpl.
      - by apply list_lookup_insert_eq.
      - done. }
    match goal with |- configPool ?s = _ /\ _ => set (st2 := s) end.
    assert (Hitems : forall r' item0, objects st !! r' = Some item0 ->
      exists item',
        objects st2 !! r' = Some item'
        /\ config item' = config item0 /\ inUse item' = inUse item0
        /\ temporary item' = temporary item0
        /\ created item' = created item0
        /\ (r' <> r0 -> item' = item0)).
    { intros r' item0 Hr'. subst st2. simpl. rewrite list_insert_insert_eq.
      destruct (decide (r' = r0)) as [->|Hne].
      - assert (item0 = item) as -> by congruence.
        eexists. split; [by apply list_lookup_insert_eq|]. simpl.
        by rewrite Hfree, Ht.
      - exists item0. by rewrite list_lookup_insert_ne. }
    destruct (Hcounts st2) as [Hc1 Hc2]; [done| |].
    { intros r' item0 Hr'.
      destruct (Hitems _ _ Hr') as (item' & H' & _ & Hu & _). by exists item'. }
    split_and!; [done|exact Hitems|exact Hc1|exact Hc2|].
    intros Hnone. congruence.
  - destruct (sdkThrows (sdkCalls st)) eqn:Hsdk.
    { rewrite getConfigFromPool_throws in Hacq by done. discriminate. }
    rewrite getConfigFromPool_temporary in Hacq by done.
    injection Hacq as <- <-.
    eexists. split.
    { eapply returnConfigToPool_temporary; simpl.
      - rewrite lookup_app_r by done. by rewrite Nat.sub_diag.
      - done. }
    match goal with |- configPool ?s = _ /\ _ => set (st2 := s) end.
    assert (Hitems : forall r' item0, objects st !! r' = Some item0 ->
      objects st2 !! r' = Some item0).
    { intros r' item0 Hr'. subst st2. simpl.
      by rewrite lookup_app_l by by apply lookup_lt_Some in Hr'. }
    destruct (Hcounts st2) as [Hc1 Hc2]; [done| |].
    { intros r' item0 Hr'. exists item0. by rewrite (Hitems _ _ Hr'). }
    split_and!; [done| |exact Hc1|exact Hc2|].
    + intros r' item0 Hr'. exists item0. by rewrite (Hitems _ _ Hr').
    + intros _. eexists. subst st2. simpl. split_and!.
      * rewrite lookup_app_r by done. by rewrite Nat.sub_diag.
      * done.
      * apply list_elem_of_here.
Qed.

(** *** No item is issued twice *)

Lemma held_acquired now st r st1 :
  getConfigFromPool sdkThrows now st = (Returned r, st1) -> held st1 r.
Proof.
  intros Hacq. unfold held.
  destruct (List.find (isAvailable st) (configPool st)) as [r0|] eqn:Hfind.
  - destruct (find_isAvailable _ _ Hfind) as (_ & item & Hr & _).
    rewrite (getConfigFromPool_reuse sdkThrows now _ _ _ Hfind Hr) in Hacq.
    injection Hacq as <- <-. eexists. simpl.
    split; [apply list_lookup_insert_eq; by apply lookup_lt_Some in Hr|].
    reflexivity.
  - destruct (sdkThrows (sdkCalls st)) eqn:Hsdk.
    { rewrite getConfigFromPool_throws in Hacq by done. discriminate. }
    rewrite getConfigFromPool_temporary in Hacq by done.
    injection Hacq as <- <-. eexists. simpl.
    split; [rewrite lookup_app_r by done; by rewrite Nat.sub_diag|].
    reflexivity.
Qed.

Lemma held_not_acquired now st r r' st' :
  held st r ->
  getConfigFromPool sdkThrows now st = (Returned r', st') -> r' <> r.
Proof.
  intros (item & Hr & Hu) Hacq.
  destruct (List.find (isAvailable st) (configPool st)) as [r0|] eqn:Hfind.
  - destruct (find_isAvailable _ _ Hfind) as (_ & item0 & Hr0 & Hfree).
    rewrite (getConfigFromPool_reuse sdkThrows now _ _ _ Hfind Hr0) in Hacq.
    injection Hacq as <- _. intros ->. congruence.
  - destruct (sdkThrows (sdkCalls st)) eqn:Hsdk.
    { rewrite getConfigFromPool_throws in Hacq by done. discriminate. }
    rewrite getConfigFromPool_temporary in Hacq by done.
    injection Hacq as <- _. apply lookup_lt_Some in Hr. lia.
Qed.

Lemma held_step st (c : Call) r :
  held st r -> isReleaseOf r c = false -> held (step sdkThrows st c) r.
Proof.
  intros (item & Hr & Hu) Hc. unfold held.
  destruct c as [now|r0 now|now]; simpl.
  - destruct (List.find (isAvailable st) (configPool st)) as [r0|] eqn:Hfind.
    + destruct (find_isAvailable _ _ Hfind) as (_ & item0 & Hr0 & Hfree).
      rewrite (getConfigFromPool_reuse sdkThrows now _ _ _ Hfind Hr0). simpl.
      exists item. by rewrite list_lookup_insert_ne by (intros ->; congruence).
    + destruct (sdkThrows (sdkCalls st)) eqn:Hsdk.
      * rewrite getConfigFromPool_throws by done. by exists item.
      * rewrite getConfigFromPool_temporary by done. simpl. exists item.
        by rewrite lookup_app_l by by apply lookup_lt_Some in Hr.
  - simpl in Hc. apply Nat.eqb_neq in Hc.
    destruct (objects st !! r0) as [item0|] eqn:Hr0.
    + destruct (temporary item0) eqn:Ht0.
      * rewrite (returnConfigToPool_temporary _ _ _ _ Hr0 Ht0). by exists item.
      * rewrite (returnConfigToPool_pooled _ _ _ _ Hr0 Ht0). simpl.
        exists item. by rewrite list_lookup_insert_ne.
    + rewrite returnConfigToPool_undefined by done. by exists item.
  - exists item. split; [|done]. apply forEach_frame; [done|].
    right. unfold isStale. by rewrite Hu.
Qed.

Lemma held_run st (calls : list Call) r :
  held st r -> forallb (fun c => negb (isReleaseOf r c)) calls = true ->
  held (run sdkThrows st calls) r.
Proof.
  revert st. induction calls as [|c calls IH]; intros st Hheld Hcalls; [done|].
  simpl in Hcalls. apply andb_prop in Hcalls as [Hc Hcalls].
  apply negb_true_iff in Hc. simpl. apply IH; [|done]. by apply held_step.
Qed.

(** X14.  No item is issued to two holders: once an acquire has returned
    an item, pooled or temporary, no later acquire returns that item as
    long as it has not been released, whatever acquires, releases of other
    items and maintenance sweeps happen in between. *)
Theorem no_double_issue now st r st1 (calls : list Call) now' r' st' :
  getConfigFromPool sdkThrows now st = (Returned r, st1) ->
  forallb (fun c => negb (isReleaseOf r c)) calls = true ->
  getConfigFromPool sdkThrows now' (run sdkThrows st1 calls)
  = (Returned r', st') ->
  r' <> r.
Proof.
  intros Hacq Hcalls Hacq'.
  eapply held_not_acquired; [|exact Hacq'].
  apply held_run; [|done]. by eapply held_acquired.
Qed.

(** *** The counters *)

Lemma refreshIfStale_same now r st :
  let st' := snd (refreshIfStale sdkThrows now r st) in
  poolStats st' = poolStats st
  /\ forall r', inUse <$> objects st' !! r' = inUse <$> objects st !! r'.
Proof.
  destruct (objects st !! r) as [item|] eqn:Hr.
  - destruct (isStale now item) eqn:Hs.
    + destruct (sdkThrows (sdkCalls st)) eqn:Hsdk.
      * by rewrite (refreshIfStale_throws _ _ _ _ _ Hr Hs Hsdk).
      * rewrite (refreshIfStale_stale _ _ _ _ _ Hr Hs Hsdk). simpl.
        split; [done|]. intros r'. destruct (decide (r' = r)) as [->|Hne].
        -- rewrite list_lookup_insert_eq by by apply lookup_lt_Some in Hr.
           by rewrite Hr.
        -- by rewrite list_lookup_insert_ne.
    + by rewrite (refreshIfStale_fresh _ _ _ _ _ Hr Hs).
  - by rewrite refreshIfStale_undefined.
Qed.

Lemma forEach_same now refs st :
  let st' := snd (forEach (refreshIfStale sdkThrows now) refs st) in
  poolStats st' = poolStats st
  /\ forall r', inUse <$> objects st' !! r' = inUse <$> objects st !! r'.
Proof.
  revert st. induction refs as [|r refs IH]; intros st; simpl; [done|].
  unfold bind. pose proof (refreshIfStale_same now r st) as [Hs Hu].
  destruct (refreshIfStale sdkThrows now r st) as [[[]|e] st1];
    simpl in *; [|done].
  destruct (IH st1) as [Hs' Hu']. split; [congruence|].
  intros r'. by rewrite Hu', Hu.
Qed.

(** X15.  A maintenance sweep is invisible to the statistics and to the
    health check, whether it ends normally or with an exception: it
    replaces configs without counting them in [created], and it changes
    no [inUse] flag, so [getPoolStats] and [checkHealth] answer after the
    sweep what they answered before. *)
Theorem maintenance_keeps_statistics now inst :
  let st' := snd (performPoolMaintenance sdkThrows now (service inst)) in
  getPoolStats st' = getPoolStats (service inst)
  /\ checkHealth
       (mkInstance st' (initialized inst) (credentials inst) (lines inst))
     = checkHealth inst.
Proof.
  set (st := service inst). intros st'.
  pose proof (forEach_same now (configPool st) st) as [Hs Hu].
  fold (performPoolMaintenance sdkThrows now st) in Hs, Hu.
  fold st' in Hs, Hu.
  pose proof (performPoolMaintenance_extends sdkThrows now st)
    as (Hp & Hsz & _). fold st' in Hp, Hsz.
  assert (Hin : forall r, isInUse st' r = isInUse st r).
  { intros r. unfold isInUse. specialize (Hu r).
    destruct (objects st' !! r), (objects st !! r); simpl in Hu; congruence. }
  assert (Hav : forall r, isAvailable st' r = isAvailable st r).
  { intros r. unfold isAvailable. specialize (Hu r).
    destruct (objects st' !! r), (objects st !! r); simpl in Hu; congruence. }
  split.
  - unfold getPoolStats. rewrite Hp, Hsz, Hs.
    by rewrite (filter_ext _ _ Hin), (filter_ext _ _ Hav).
  - unfold checkHealth. simpl. fold st. rewrite Hp.
    destruct (initialized inst); simpl; [|done].
    apply eq_true_iff_eq. rewrite !existsb_exists.
    split; intros (r & Hr & H); exists r; by rewrite ?Hav in *.
Qed.

Lemma step_counters st (c : Call) :
  let st' := step sdkThrows st c in
  (Stats.created (poolStats st) <= Stats.created (poolStats st'))%nat
  /\ (Stats.reused (poolStats st) <= Stats.reused (poolStats st'))%nat
  /\ (Stats.destroyed (poolStats st) <= Stats.destroyed (poolStats st'))%nat
  /\ ((forall n, sdkThrows n = false) ->
      (Stats.created (poolStats st') + Stats.reused (poolStats st'))%nat
      = (Stats.created (poolStats st) + Stats.reused (poolStats st)
         + if isAcquire c then 1 else 0)%nat).
Proof.
  destruct c as [now|r now|now]; simpl.
  - destruct (List.find (isAvailable st) (configPool st)) as [r0|] eqn:Hfind.
    + destruct (find_isAvailable _ _ Hfind) as (_ & item0 & Hr0 & _).
      rewrite (getConfigFromPool_reuse sdkThrows now _ _ _ Hfind Hr0). simpl.
      split_and!; lia.
    + destruct (sdkThrows (sdkCalls st)) eqn:Hsdk.
      * rewrite getConfigFromPool_throws by done. simpl.
        split_and!; try lia. intros Hno. by rewrite Hno in Hsdk.
      * rewrite getConfigFromPool_temporary by done. simpl.
        split_and!; lia.
  - destruct (objects st !! r) as [item|] eqn:Hr.
    + destruct (temporary item) eqn:Ht.
      * rewrite (returnConfigToPool_temporary _ _ _ _ Hr Ht). simpl.
        split_and!; lia.
      * rewrite (returnConfigToPool_pooled _ _ _ _ Hr Ht). simpl.
        split_and!; lia.
    + rewrite returnConfigToPool_undefined by done. simpl.
      split_and!; lia.
  - pose proof (forEach_same now (configPool st) st) as [Hs _].
    fold (performPoolMaintenance sdkThrows now st) in Hs. simpl in Hs.
    rewrite Hs. split_and!; lia.
Qed.

(** X16.  The counters never decrease, and every acquire is counted
    exactly once: when the SDK constructor does not throw, [created +
    reused] grows, over any sequence of calls, by the number of acquires
    in it. *)
Theorem acquisitions_counted st (calls : list Call) :
  let st' := run sdkThrows st calls in
  (Stats.created (poolStats st) <= Stats.created (poolStats st'))%nat
  /\ (Stats.reused (poolStats st) <= Stats.reused (poolStats st'))%nat
  /\ (Stats.destroyed (poolStats st) <= Stats.destroyed (poolStats st'))%nat
  /\ ((forall n, sdkThrows n = false) ->
      (Stats.created (poolStats st') + Stats.reused (poolStats st'))%nat
      = (Stats.created (poolStats st) + Stats.reused (poolStats st)
         + length (List.filter isAcquire calls))%nat).
Proof.
  revert st. induction calls as [|c calls IH]; intros st; simpl.
  - split_and!; lia.
  - destruct (IH (step sdkThrows st c)) as (H1 & H2 & H3 & H4).
    destruct (step_counters st c) as (S1 & S2 & S3 & S4). simpl in *.
    split_and!; try lia. intros Hno.
    rewrite (H4 Hno), (S4 Hno). destruct (isAcquire c); simpl; lia.
Qed.

(** *** A sweep settles the pool *)

Lemma forEach_settles now refs st st1 :
  forEach (refreshIfStale sdkThrows now) refs st = (Returned tt, st1) ->
  Forall (fun r => exists item,
            objects st1 !! r = Some item /\ isStale now item = false) refs.
Proof.
  revert st. induction refs as [|r refs IH]; intros st Hrun; [constructor|].
  cbn [forEach] in Hrun. unfold bind in Hrun.
  destruct (refreshIfStale sdkThrows now r st) as [[[]|e] st'] eqn:E;
    [|discriminate].
  constructor; [|by apply (IH st')].
  assert (Hr : exists item,
             objects st' !! r = Some item /\ isStale now item = false).
  { destruct (objects st !! r) as [item|] eqn:Hr.
    - destruct (isStale now item) eqn:Hs.
      + destruct (sdkThrows (sdkCalls st)) eqn:Hsdk.
        * rewrite (refreshIfStale_throws _ _ _ _ _ Hr Hs Hsdk) in E.
          discriminate.
        * rewrite (refreshIfStale_stale _ _ _ _ _ Hr Hs Hsdk) in E.
          injection E as <-. eexists. simpl.
          split; [apply list_lookup_insert_eq; by apply lookup_lt_Some in Hr|].
          unfold isStale. cbn [inUse lastUsed]. rewrite Z.sub_diag.
          apply andb_false_r.
      + rewrite (refreshIfStale_fresh _ _ _ _ _ Hr Hs) in E.
        injection E as <-. by exists item.
    - rewrite refreshIfStale_undefined in E by done. discriminate. }
  destruct Hr as (item & Hr & Hs). exists item. split; [|done].
  replace st1
    with (snd (forEach (refreshIfStale sdkThrows now) refs st'))
    by by rewrite Hrun.
  apply forEach_frame; [done|by right].
Qed.

Lemma forEach_settled now refs st :
  Forall (fun r => exists item,
            objects st !! r = Some item /\ isStale now item = false) refs ->
  forEach (refreshIfStale sdkThrows now) refs st = (Returned tt, st).
Proof.
  induction 1 as [|r refs (item & Hr & Hs) _ IH]; [done|].
  cbn [forEach]. unfold bind.
  by rewrite (refreshIfStale_fresh _ _ _ _ _ Hr Hs).
Qed.

(** X17.  A maintenance sweep that returns normally leaves no stale item
    in the pool: every pooled item is then in use or was used (or made)
    at most [maxAge] ago.  A second sweep at the same time therefore does
    nothing: it closes no config, calls no constructor and leaves the
    service as it is. *)
Theorem maintenance_settles now st st1 :
  performPoolMaintenance sdkThrows now st = (Returned tt, st1) ->
  (forall r, r ∈ configPool st1 ->
     exists item, objects st1 !! r = Some item
                  /\ (inUse item = true \/ now - lastUsed item <= maxAge))
  /\ performPoolMaintenance sdkThrows now st1 = (Returned tt, st1).
Proof.
  intros Hrun.
  assert (Hpool : configPool st1 = configPool st).
  { pose proof (performPoolMaintenance_extends sdkThrows now st) as [Hp _].
    by rewrite Hrun in Hp. }
  pose proof (forEach_settles now (configPool st) st st1 Hrun) as Hall.
  rewrite <- Hpool in Hall. split.
  - intros r Hr. rewrite Forall_forall in Hall.
    destruct (Hall r Hr) as (item & Hitem & Hs). exists item.
    split; [done|]. unfold isStale in Hs.
    destruct (inUse item); [by left|right]. simpl in Hs.
    by apply Z.ltb_ge in Hs.
  - unfold performPoolMaintenance. by apply forEach_settled.
Qed.

(** *** Shutdown *)

Lemma forEach_close refs st :
  (forall r, r ∈ refs -> is_Some (objects st !! r)) ->
  forEach (fun r => item <- read r ;; Pool.close (config item)) refs st
  = (Returned tt,
     mkService (objects st) (configPool st) (poolSize st) (poolStats st)
       (sdkCalls st)
       (rev (omap (fun r => config <$> objects st !! r) refs)
          ++ closedConfigs st)
       (console st)).
Proof.
  revert st. induction refs as [|r refs IH]; intros st Hvalid.
  - by destruct st.
  - destruct (Hvalid r (list_elem_of_here _ _)) as [item Hr].
    cbn [forEach]. unfold bind at 1, read, bind at 1. rewrite Hr.
    unfold Pool.close, modify. rewrite IH.
    + cbn [objects configPool poolSize poolStats sdkCalls closedConfigs
           console].
      change (omap ?f (r :: refs))
        with (match f r with
              | Some h => h :: omap f refs
              | None => omap f refs
              end).
      cbn beta. rewrite Hr. cbn [fmap option_fmap option_map rev].
      by rewrite <- app_assoc.
    + intros r' Hr'. cbn [objects].
      apply Hvalid. by apply list_elem_of_further.
Qed.

(** X18.  [close()] on a service whose pool is well formed returns
    normally, closes the config of every pooled item, also of the items
    that are in use at that moment, empties the pool array and clears
    [initialized]; the objects themselves are left as they are.
    Afterwards [checkHealth] is false and an acquire can only hand out a
    new temporary item. *)
Theorem close_spec inst :
  poolWf (service inst) ->
  let inst' := snd (close inst) in
  fst (close inst) = None
  /\ configPool (service inst') = []
  /\ initialized inst' = false
  /\ checkHealth inst' = false
  /\ objects (service inst') = objects (service inst)
  /\ (forall r item,
        r ∈ configPool (service inst) ->
        objects (service inst) !! r = Some item ->
        config item ∈ closedConfigs (service inst'))
  /\ (forall now r st',
        getConfigFromPool sdkThrows now (service inst') = (Returned r, st') ->
        r = length (objects (service inst))
        /\ exists item, objects st' !! r = Some item
                        /\ temporary item = true).
Proof.
  intros Hwf. unfold close.
  rewrite forEach_close by (intros r Hr; by apply poolWf_valid).
  cbn [fst snd service initialized withConfigPool configPool objects
       closedConfigs]. split_and!; try done.
  - intros r item Hr Hitem. apply elem_of_app. left.
    apply list_elem_of_In. rewrite <- in_rev. apply list_elem_of_In.
    apply list_elem_of_omap. exists r.
    split; [done|]. by rewrite Hitem.
  - intros now r st' Hacq.
    destruct (sdkThrows (sdkCalls (service inst))) eqn:Hsdk.
    { rewrite getConfigFromPool_throws in Hacq by done. discriminate. }
    rewrite getConfigFromPool_temporary in Hacq by done.
    cbn [objects] in Hacq. injection Hacq as <- <-. split; [done|].
    eexists. cbn [objects].
    split; [rewrite lookup_app_r by done; by rewrite Nat.sub_diag|].
    reflexivity.
Qed.

(** *** Initialization of the service *)

(** X19.  After a successful [initialize()] of a service with credentials
    and a positive [poolSize], [checkHealth] is true, and every further
    [initialize()] returns at once and changes nothing: no constructor
    call, no new item, no console line. *)
Theorem initialize_ready now now' inst :
  initialized inst = false -> credentials inst = true ->
  (0 < poolSize (service inst))%nat ->
  (forall k, (k < poolSize (service inst))%nat ->
     sdkThrows (sdkCalls (service inst) + k) = false) ->
  let inst1 := snd (initialize sdkThrows now inst) in
  fst (initialize sdkThrows now inst) = None
  /\ initialized inst1 = true
  /\ checkHealth inst1 = true
  /\ initialize sdkThrows now' inst1 = (None, inst1).
Proof.
  intros Hinit Hcred Hsize Hsdk.
  assert (E1 : initialize sdkThrows now inst
               = (None,
                  mkInstance
                    (mkService
                       (objects (service inst)
                          ++ pooledItems (sdkCalls (service inst))
                               (poolSize (service inst)) now)
                       (configPool (service inst)
                          ++ seq (length (objects (service inst)))
                               (poolSize (service inst)))
                       (poolSize (service inst))
                       (Stats.mk
                          (Stats.created (poolStats (service inst))
                           + poolSize (service inst))
                          (Stats.reused (poolStats (service inst)))
                          (Stats.destroyed (poolStats (service inst))))
                       (sdkCalls (service inst) + poolSize (service inst))
                       (closedConfigs (service inst))
                       (console (service inst) ++ [LogCreatingPool]))
                    true (credentials inst)
                    (lines inst
                       ++ [LineInitialized (poolSize (service inst))]))).
  { unfold initialize. rewrite Hinit, Hcred. cbn [negb].
    rewrite initializeConfigPool_times.
    by rewrite times_returns by exact Hsdk. }
  rewrite E1. cbn [fst snd initialized]. split_and!; try done.
  unfold checkHealth.
  cbn [initialized negb service configPool objects sdkCalls].
  rewrite existsb_app. apply orb_true_iff. right.
  destruct (poolSize (service inst)) as [|n]; [lia|].
  rewrite pooledItems_S. cbn [seq existsb]. apply orb_true_iff. left.
  unfold isAvailable. cbn [objects].
  rewrite lookup_app_r by done. by rewrite Nat.sub_diag.
Qed.

(** X20.  A failed [initialize()] is not undone: when the constructor
    throws at its call number [k] of the initialization, the [k] items
    made so far stay in the pool array and the service stays
    uninitialized; a retry that succeeds adds [poolSize] items more, so
    that the pool array then holds [k] items more than [poolSize], which
    itself is unchanged. *)
Theorem initialize_retry now now' inst k :
  initialized inst = false -> credentials inst = true ->
  (k < poolSize (service inst))%nat ->
  (forall j, (j < k)%nat ->
     sdkThrows (sdkCalls (service inst) + j) = false) ->
  sdkThrows (sdkCalls (service inst) + k) = true ->
  (forall j, (j < poolSize (service inst))%nat ->
     sdkThrows (S (sdkCalls (service inst) + k) + j) = false) ->
  let inst1 := snd (initialize sdkThrows now inst) in
  let inst2 := snd (initialize sdkThrows now' inst1) in
  fst (initialize sdkThrows now inst) = Some (Raised SdkError)
  /\ initialized inst1 = false
  /\ checkHealth inst1 = false
  /\ length (configPool (service inst1))
     = (length (configPool (service inst)) + k)%nat
  /\ fst (initialize sdkThrows now' inst1) = None
  /\ initialized inst2 = true
  /\ poolSize (service inst2) = poolSize (service inst)
  /\ length (configPool (service inst2))
     = (length (configPool (service inst)) + k
        + poolSize (service inst))%nat.
Proof.
  intros Hinit Hcred Hk Hbefore Hat Hafter.
  assert (E1 : initialize sdkThrows now inst
               = (Some (Raised SdkError),
                  mkInstance
                    (mkService
                       (objects (service inst)
                          ++ pooledItems (sdkCalls (service inst)) k now)
                       (configPool (service inst)
                          ++ seq (length (objects (service inst))) k)
                       (poolSize (service inst))
                       (Stats.mk
                          (Stats.created (poolStats (service inst)) + k)
                          (Stats.reused (poolStats (service inst)))
                          (Stats.destroyed (poolStats (service inst))))
                       (S (sdkCalls (service inst) + k))
                       (closedConfigs (service inst))
                       (console (service inst) ++ [LogCreatingPool]))
                    false (credentials inst)
                    (lines inst ++ [LineInitializeFailed]))).
  { unfold initialize. rewrite Hinit, Hcred. cbn [negb].
    rewrite initializeConfigPool_times.
    by rewrite (times_throws now (poolSize (service inst)) k). }
  rewrite E1. cbn [fst snd].
  unfold initialize. cbn [initialized credentials service]. rewrite Hcred.
  cbn [negb]. rewrite initializeConfigPool_times.
  cbn [objects configPool poolSize poolStats sdkCalls closedConfigs console].
  rewrite times_returns by exact Hafter.
  cbn [fst snd initialized service configPool poolSize].
  split_and!; try done.
  - by rewrite length_app, length_seq.
  - by rewrite !length_app, !length_seq.
Qed.

End Facts.

(** *** The properties on concrete pools *)

Import Examples.

Lemma initializeConfigPool_appends_witness :
  (forall k, (k < poolSize constructor)%nat ->
     sdkReliable (sdkCalls constructor + k) = false)
  /\ initializeConfigPool sdkReliable 0 constructor
     = (Returned tt,
        mkService
          (objects constructor
             ++ pooledItems (sdkCalls constructor) (poolSize constructor) 0)
          (configPool constructor
             ++ seq (length (objects constructor)) (poolSize constructor))
          (poolSize constructor)
          (Stats.mk
             (Stats.created (poolStats constructor) + poolSize constructor)
             (Stats.reused (poolStats constructor))
             (Stats.destroyed (poolStats constructor)))
          (sdkCalls constructor + poolSize constructor)
          (closedConfigs constructor)
          (console constructor ++ [LogCreatingPool])).
Proof.
  assert (Hsdk : forall k, (k < poolSize constructor)%nat ->
                   sdkReliable (sdkCalls constructor + k) = false)
    by (intros k _; reflexivity).
  exact (conj Hsdk
           (initializeConfigPool_appends sdkReliable 0 constructor Hsdk)).
Defined.

Lemma initializeConfigPool_partial_witness :
  ((2 < poolSize constructor)%nat
   /\ (forall j, (j < 2)%nat ->
         sdkFailsAt 2 (sdkCalls constructor + j) = false)
   /\ sdkFailsAt 2 (sdkCalls constructor + 2) = true)
  /\ initializeConfigPool (sdkFailsAt 2) 0 constructor
     = (Thrown SdkError,
        mkService
          (objects constructor ++ pooledItems (sdkCalls constructor) 2 0)
          (configPool constructor ++ seq (length (objects constructor)) 2)
          (poolSize constructor)
          (Stats.mk (Stats.created (poolStats constructor) + 2)
             (Stats.reused (poolStats constructor))
             (Stats.destroyed (poolStats constructor)))
          (S (sdkCalls constructor + 2)) (closedConfigs constructor)
          (console constructor ++ [LogCreatingPool])).
Proof.
  assert (Hk : (2 < poolSize constructor)%nat) by (simpl; lia).
  assert (Hbefore : forall j, (j < 2)%nat ->
                      sdkFailsAt 2 (sdkCalls constructor + j) = false).
  { intros j Hj. destruct j as [|[|j]]; [reflexivity|reflexivity|lia]. }
  assert (Hat : sdkFailsAt 2 (sdkCalls constructor + 2) = true)
    by reflexivity.
  exact (conj (conj Hk (conj Hbefore Hat))
           (initializeConfigPool_partial (sdkFailsAt 2) 0 constructor 2
              Hk Hbefore Hat)).
Defined.

Lemma getPoolStats_partition_witness :
  (forall n, (n < 5)%nat -> sdkReliable n = false)
  /\ PoolStats.poolSize
       (getPoolStats
          (run sdkReliable
             (snd (initializeConfigPool sdkReliable 0 constructor))
             overflowCalls))
     = 5%nat.
Proof.
  assert (Hsdk : forall n, (n < 5)%nat -> sdkReliable n = false)
    by (intros n _; reflexivity).
  exact (conj Hsdk
           (proj1 (getPoolStats_partition sdkReliable 0 overflowCalls Hsdk))).
Defined.

Lemma acquire_release_witness :
  (poolWf freshPool
   /\ getConfigFromPool sdkReliable 1000 freshPool
      = (Returned 0%nat, snd (getConfigFromPool sdkReliable 1000 freshPool)))
  /\ exists st2,
       returnConfigToPool 0 2000
         (snd (getConfigFromPool sdkReliable 1000 freshPool))
       = (Returned tt, st2)
       /\ configPool st2 = configPool freshPool.
Proof.
  assert (Hwf : poolWf freshPool) by exact poolWf_freshPool.
  assert (Hacq : getConfigFromPool sdkReliable 1000 freshPool
                 = (Returned 0%nat,
                    snd (getConfigFromPool sdkReliable 1000 freshPool)))
    by (vm_compute; reflexivity).
  split; [exact (conj Hwf Hacq)|].
  destruct (acquire_release sdkReliable 1000 2000 freshPool 0%nat
              (snd (getConfigFromPool sdkReliable 1000 freshPool)) Hwf Hacq)
    as (st2 & Hret & Hpool & _).
  exists st2. exact (conj Hret Hpool).
Defined.

Lemma no_double_issue_witness :
  (getConfigFromPool sdkReliable 1000 freshPool
   = (Returned 0%nat, snd (getConfigFromPool sdkReliable 1000 freshPool))
   /\ forallb (fun c => negb (isReleaseOf 0 c))
        [CallAcquire 1001; CallRelease 1 1002; CallMaintenance 400000]
      = true
   /\ getConfigFromPool sdkReliable 400001
        (run sdkReliable (snd (getConfigFromPool sdkReliable 1000 freshPool))
           [CallAcquire 1001; CallRelease 1 1002; CallMaintenance 400000])
      = (Returned 1%nat,
         snd (getConfigFromPool sdkReliable 400001
                (run sdkReliable
                   (snd (getConfigFromPool sdkReliable 1000 freshPool))
                   [CallAcquire 1001; CallRelease 1 1002;
                    CallMaintenance 400000]))))
  /\ 1%nat <> 0%nat.
Proof.
  assert (Hacq : getConfigFromPool sdkReliable 1000 freshPool
                 = (Returned 0%nat,
                    snd (getConfigFromPool sdkReliable 1000 freshPool)))
    by (vm_compute; reflexivity).
  assert (Hcalls : forallb (fun c => negb (isReleaseOf 0 c))
                     [CallAcquire 1001; CallRelease 1 1002;
                      CallMaintenance 400000]
                   = true) by reflexivity.
  assert (Hacq' :
    getConfigFromPool sdkReliable 400001
      (run sdkReliable (snd (getConfigFromPool sdkReliable 1000 freshPool))
         [CallAcquire 1001; CallRelease 1 1002; CallMaintenance 400000])
    = (Returned 1%nat,
       snd (getConfigFromPool sdkReliable 400001
              (run sdkReliable
                 (snd (getConfigFromPool sdkReliable 1000 freshPool))
                 [CallAcquire 1001; CallRelease 1 1002;
                  CallMaintenance 400000]))))
    by (vm_compute; reflexivity).
  exact (conj (conj Hacq (conj Hcalls Hacq'))
           (no_double_issue sdkReliable 1000 freshPool 0%nat _ _ 400001
              1%nat _ Hacq Hcalls Hacq')).
Defined.

Lemma maintenance_settles_witness :
  performPoolMaintenance sdkReliable 400000 freshPool
  = (Returned tt, snd (performPoolMaintenance sdkReliable 400000 freshPool))
  /\ performPoolMaintenance sdkReliable 400000
       (snd (performPoolMaintenance sdkReliable 400000 freshPool))
     = (Returned tt,
        snd (performPoolMaintenance sdkReliable 400000 freshPool)).
Proof.
  assert (Hrun : performPoolMaintenance sdkReliable 400000 freshPool
                 = (Returned tt,
                    snd (performPoolMaintenance sdkReliable 400000
                           freshPool)))
    by (vm_compute; reflexivity).
  exact (conj Hrun
           (proj2 (maintenance_settles sdkReliable 400000 freshPool _
                     Hrun))).
Defined.

Lemma close_spec_witness :
  poolWf (service readyInstance)
  /\ fst (close readyInstance) = None.
Proof.
  assert (Hwf : poolWf (service readyInstance)) by exact poolWf_freshPool.
  exact (conj Hwf (proj1 (close_spec sdkReliable readyInstance Hwf))).
Defined.

Lemma initialize_ready_witness :
  (initialized (newInstance true) = false
   /\ credentials (newInstance true) = true
   /\ (0 < poolSize (service (newInstance true)))%nat
   /\ (forall k, (k < poolSize (service (newInstance true)))%nat ->
         sdkReliable (sdkCalls (service (newInstance true)) + k) = false))
  /\ checkHealth (snd (initialize sdkReliable 0 (newInstance true))) = true.
Proof.
  assert (Hsize : (0 < poolSize (service (newInstance true)))%nat)
    by (simpl; lia).
  assert (Hsdk : forall k, (k < poolSize (service (newInstance true)))%nat ->
                   sdkReliable (sdkCalls (service (newInstance true)) + k)
                   = false)
    by (intros k _; reflexivity).
  exact (conj (conj eq_refl (conj eq_refl (conj Hsize Hsdk)))
           (proj1 (proj2 (proj2
              (initialize_ready sdkReliable 0 1 (newInstance true)
                 eq_refl eq_refl Hsize Hsdk))))).
Defined.

Lemma initialize_retry_witness :
  (initialized (newInstance true) = false
   /\ credentials (newInstance true) = true
   /\ (2 < poolSize (service (newInstance true)))%nat
   /\ (forall j, (j < 2)%nat ->
         sdkFailsAt 2 (sdkCalls (service (newInstance true)) + j) = false)
   /\ sdkFailsAt 2 (sdkCalls (service (newInstance true)) + 2) = true
   /\ (forall j, (j < poolSize (service (newInstance true)))%nat ->
         sdkFailsAt 2 (S (sdkCalls (service (newInstance true)) + 2) + j)
         = false))
  /\ fst (initialize (sdkFailsAt 2) 0 (newInstance true))
     = Some (Raised SdkError).
Proof.
  assert (Hk : (2 < poolSize (service (newInstance true)))%nat)
    by (simpl; lia).
  assert (Hbefore : forall j, (j < 2)%nat ->
            sdkFailsAt 2 (sdkCalls (service (newInstance true)) + j)
            = false).
  { intros j Hj. destruct j as [|[|j]]; [reflexivity|reflexivity|lia]. }
  assert (Hafter : forall j,
            (j < poolSize (service (newInstance true)))%nat ->
            sdkFailsAt 2 (S (sdkCalls (service (newInstance true)) + 2) + j)
            = false)
    by (intros j _; reflexivity).
  exact (conj (conj eq_refl (conj eq_refl (conj Hk
                 (conj Hbefore (conj eq_refl Hafter)))))
           (proj1 (initialize_retry (sdkFailsAt 2) 0 1 (newInstance true) 2
                     eq_refl eq_refl Hk Hbefore eq_refl Hafter))).
Defined.

End SpeechFacts.
